(** * DocDB: the query matcher, the index manager and the index search

    A shallow embedding of [packages/core/src/query.ts] ([evaluate], [match])
    and of [packages/core/src/database.ts] ([insert], [get], [search],
    [transaction], [createIndex]), followed by the properties the
    specification states about them.

    Conventions of the embedding:
    - a JavaScript object is the list of its own properties in the order
      [for ... in] enumerates them; property names are distinct, and the
      properties an object inherits from [Object.prototype] are left out:
      [key in document] and [value[field]] look at own properties;
    - a value read back from a store is a JSON value; [undefined] only
      occurs as the operand of a query operator, as a key handed to a
      method, and as the result of projecting a field a document does not
      have, and is written [None];
    - numbers are the integers; a string is the sequence of the bytes of
      its UTF-8 encoding, which is how a store orders its keys;
    - an asynchronous method is the sequential state transformer it is once
      every [await] has been resolved;
    - the database is taken between [open] and [close]; a store handle
      opens and closes without failure, and the failures of a store are
      those of [level]: a key that is [null] or [undefined] is rejected,
      and [get] raises on a key the store does not hold. *)

From Stdlib Require Import List String Ascii ZArith NArith Bool Lia Arith.
From Stdlib Require Import Permutation DecimalString.
Import ListNotations.
Open Scope string_scope.

Set Implicit Arguments.
Set Warnings "-register-all".

(* ================================================================== *)
(** * Part I: definitions                                              *)
(* ================================================================== *)

(** ** Values *)

Inductive json : Type :=
| JNull
| JBool (b : bool)
| JNum (n : Z)
| JStr (s : string)
| JArr (items : list json)
| JObj (fields : list (string * json)).

(** An object with properties of type [A], in enumeration order. *)
Definition object (A : Type) : Type := list (string * A).

(** [key in o] *)
Definition obj_has {A} (key : string) (o : object A) : bool :=
  existsb (fun kv => fst kv =? key) o.

(** [o[key]], [None] when the property is missing. *)
Fixpoint obj_get {A} (key : string) (o : object A) : option A :=
  match o with
  | [] => None
  | (k, v) :: rest => if k =? key then Some v else obj_get key rest
  end.

(** A stored document: a record of JSON fields. *)
Definition document : Type := object json.

(** The operand of an operator: [None] is [undefined]. *)
Definition operand : Type := option json.

(** [QueryItem = { $eq?: string } & { $neq?: string } & { $gt?: number }],
    as the object [evaluate] enumerates. *)
Definition QueryItem : Type := object operand.

(** [Query = { [k: string]: QueryItem | Query[] }] *)
Inductive Query : Type :=
| MkQuery (entries : list (string * QueryValue))
with QueryValue : Type :=
| QItem (item : QueryItem)
| QSeq (qs : list Query).

(** ** Errors and results *)

Inductive error : Type :=
| InvalidQueryShape (msg : string)   (* the two [throw Error(...)] of [match] *)
| NotFound                           (* a store [get] on a key it does not hold *)
| InvalidKey                         (* a store operation on a key it rejects *)
| UserError (msg : string).          (* raised by a transaction body *)

Inductive result (A : Type) : Type :=
| Ok (a : A)
| Err (e : error).
Arguments Ok {A} a.
Arguments Err {A} e.

(** ** The operators of the host language *)

(** [a === b] on a JSON value and an operand.  Primitives are compared by
    value; an array or an object is only identical to itself, and a
    document decoded from the store shares no reference with a query. *)
Definition strict_eq (a : json) (b : operand) : bool :=
  match a, b with
  | JNull, Some JNull => true
  | JBool x, Some (JBool y) => Bool.eqb x y
  | JNum x, Some (JNum y) => (x =? y)%Z
  | JStr x, Some (JStr y) => (x =? y)%string
  | _, _ => false
  end.

(** Truthiness, for [||]. *)
Definition truthy (v : json) : bool :=
  match v with
  | JNull => false
  | JBool b => b
  | JNum n => negb (n =? 0)%Z
  | JStr s => negb (s =? "")%string
  | JArr _ | JObj _ => true
  end.

(** [o || 0] *)
Definition or_zero (o : operand) : json :=
  match o with
  | Some v => if truthy v then v else JNum 0
  | None => JNum 0
  end.

(** [a > b].  The comparison coerces its operands (strings that spell
    numbers, arrays, objects); the embedding fixes it on two numbers and
    leaves the coercions to the host. *)
Class JsCompare : Type := {
  js_gt : json -> json -> bool;
  js_gt_num : forall a b : Z, js_gt (JNum a) (JNum b) = (b <? a)%Z
}.

(** The comparison of two numbers or of two strings; used by the examples. *)
Definition prim_gt (a b : json) : bool :=
  match a, b with
  | JNum x, JNum y => (y <? x)%Z
  | JStr x, JStr y => String.ltb y x
  | _, _ => false
  end.

#[export] Instance prim_compare : JsCompare :=
  {| js_gt := prim_gt; js_gt_num := fun a b => eq_refl |}.

(** ** Control flow of a loop body that may return from the function *)

Inductive step (A : Type) : Type :=
| Continue
| Return (r : A).
Arguments Continue {A}.
Arguments Return {A} r.

Section ForIn.
Context {V A : Type}.
Variable body : string -> V -> step A.
Variable done : A.

(** [for (const key in o) { const value = o[key]; body }; return done] *)
Fixpoint for_in (o : object V) : A :=
  match o with
  | [] => done
  | (key, value) :: rest =>
      match body key value with
      | Return r => r
      | Continue => for_in rest
      end
  end.
End ForIn.

Section ArraySome.
Context {A : Type}.
Variable f : A -> result bool.

(** [array.some(f)]: stops at the first element [f] accepts; an
    exception of [f] leaves [some]. *)
Fixpoint some (l : list A) : result bool :=
  match l with
  | [] => Ok false
  | x :: l' =>
      match f x with
      | Ok true => Ok true
      | Ok false => some l'
      | Err e => Err e
      end
  end.
End ArraySome.

(** ** query.ts *)

Section QueryTs.
Context {cmp : JsCompare}.

Fixpoint evaluate (item : QueryItem) (value : json) : bool :=
  match item with
  | [] => false
  | (key, o) :: rest =>
      if key =? "$eq" then strict_eq value o
      else if key =? "$neq" then negb (strict_eq value o)
      else if key =? "$gt" then js_gt value (or_zero o)
      else evaluate rest value
  end.

Fixpoint match_ (query : Query) (doc : document) {struct query} : result bool :=
  match query with
  | MkQuery entries =>
      for_in (fun key value =>
        if key =? "$or" then
          match value with
          | QItem _ =>
              Return (Err (InvalidQueryShape
                "Invalid query type for or. This must be an array"))
          | QSeq qs => Return (some (fun q => match_ q doc) qs)
          end
        else
          match value with
          | QSeq _ =>
              Return (Err (InvalidQueryShape
                ("Invalid query type of " ++ key ++ ". Must be an object")))
          | QItem item =>
              match obj_get key doc with
              | Some v =>
                  if negb (evaluate item v) then Return (Ok false)
                  else Continue
              | None => Continue
              end
          end)
        (Ok true) entries
  end.
End QueryTs.

(** ** What the specification says of a query *)

(** The invariant of the data model: the value of [$or] is a sequence of
    queries, the value of any other key is not a sequence. *)
Fixpoint well_shaped (q : Query) : bool :=
  match q with
  | MkQuery entries =>
      forallb (fun kv =>
        if fst kv =? "$or" then
          match snd kv with
          | QSeq qs => forallb well_shaped qs
          | QItem _ => false
          end
        else
          match snd kv with
          | QItem _ => true
          | QSeq _ => false
          end) entries
  end.

(** The operator keys [evaluate] recognises. *)
Definition is_operator (key : string) : bool :=
  (key =? "$eq") || (key =? "$neq") || (key =? "$gt").

Section QuerySpec.
Context {cmp : JsCompare}.



End QuerySpec.

(** ** The key-value store ([level]) *)

(** A store holds its entries in the bytewise order of their keys, which
    is the order its iterator follows. *)
Definition store (V : Type) : Type := list (string * V).

Fixpoint store_get {V} (k : string) (st : store V) : option V :=
  match st with
  | [] => None
  | (k', v) :: rest => if k' =? k then Some v else store_get k rest
  end.

Fixpoint store_put {V} (k : string) (v : V) (st : store V) : store V :=
  match st with
  | [] => [(k, v)]
  | (k', v') :: rest =>
      match String.compare k k' with
      | Lt => (k, v) :: st
      | Eq => (k, v) :: rest
      | Gt => (k', v') :: store_put k v rest
      end
  end.

(** [it.seek(target)]: the entries from the first key not below [target]. *)
Fixpoint store_seek {V} (target : string) (st : store V) : store V :=
  match st with
  | [] => []
  | (k, v) :: rest =>
      if String.ltb k target then store_seek target rest else st
  end.

(** [parts.join(sep)] *)
Fixpoint join (sep : string) (parts : list string) : string :=
  match parts with
  | [] => ""
  | [p] => p
  | p :: rest => p ++ sep ++ join sep rest
  end.

(** [String(v)], the [utf8] key encoding of a value that is not a buffer. *)
Fixpoint to_String (v : json) : string :=
  match v with
  | JNull => "null"
  | JBool true => "true"
  | JBool false => "false"
  | JNum n => NilZero.string_of_int (Z.to_int n)
  | JStr s => s
  | JArr items =>
      join "," (map (fun x => match x with
                              | JNull => ""
                              | _ => to_String x
                              end) items)
  | JObj _ => "[object Object]"
  end.

(** The key a store files a value under; [null] and [undefined] are
    rejected before they are encoded. *)
Definition encode_key (key : operand) : option string :=
  match key with
  | None | Some JNull => None
  | Some v => Some (to_String v)
  end.

(** ** The order of the properties of an object *)

(** An array index is the canonical decimal numeral of an integer below
    [2^32 - 1]; [for ... in] visits these first, in ascending order, and
    then the other names in the order they were added. *)
Definition array_index (key : string) : option N :=
  match NilZero.uint_of_string key with
  | Some u =>
      let n := N.of_uint u in
      if (NilZero.string_of_uint (N.to_uint n) =? key) && (n <? 4294967295)%N
      then Some n else None
  | None => None
  end.

(** Where a new array index goes among the properties there are. *)
Fixpoint obj_add_index {A} (n : N) (key : string) (v : A) (o : object A)
  : object A :=
  match o with
  | [] => [(key, v)]
  | (k', v') :: rest =>
      match array_index k' with
      | Some m =>
          if (m <? n)%N then (k', v') :: obj_add_index n key v rest
          else (key, v) :: o
      | None => (key, v) :: o
      end
  end.

Fixpoint obj_replace {A} (key : string) (v : A) (o : object A) : object A :=
  match o with
  | [] => []
  | (k', v') :: rest =>
      if k' =? key then (k', v) :: rest else (k', v') :: obj_replace key v rest
  end.

(** [o[key] = v] *)
Definition obj_set {A} (key : string) (v : A) (o : object A) : object A :=
  if obj_has key o then obj_replace key v o
  else match array_index key with
       | Some n => obj_add_index n key v o
       | None => (o ++ [(key, v)])%list
       end.

(** ** The database *)

(** [IndexOptions]; [type] is the string the [switch] of [createIndex]
    looks at. *)
Record IndexOptions : Type := {
  name : string;
  field : string;
  type : string
}.

(** An entry of [meta.indexes]. *)
Record IndexDef : Type := {
  def_field : string;
  def_type : string
}.

(** [Search], with the two optional members of [query]. *)
Record Search : Type := {
  index : string;
  query_eq : option string;
  query_startsWith : option string
}.

(** What reaches the stores and the metadata file. *)
Inductive event : Type :=
| PrimaryPut (key : string)
| PrimaryRead
| IndexOpen (n : string)
| IndexRead (n : string)
| IndexWrite (n : string)
| IndexClose (n : string)
| MetaWrite.

(** A [Database] between [open] and [close]: the primary store [db], the
    posting store at [root/index/<name>] for every name, [meta.indexes],
    the content of [root/meta.json], and the operations so far. *)
Record Database : Type := {
  db : store document;
  index_db : string -> store (list string);
  meta : object IndexDef;
  meta_json : option (object IndexDef);
  log : list event
}.

(** ** Asynchronous methods as state transformers *)

Definition M (A : Type) : Type := Database -> result A * Database.

Definition ret {A} (a : A) : M A := fun s => (Ok a, s).

Definition throw {A} (e : error) : M A := fun s => (Err e, s).

Definition bind {A B} (m : M A) (k : A -> M B) : M B :=
  fun s =>
    match m s with
    | (Ok a, s') => k a s'
    | (Err e, s') => (Err e, s')
    end.

(** [try { m } catch { h }] *)
Definition catch {A} (m : M A) (h : error -> M A) : M A :=
  fun s =>
    match m s with
    | (Ok a, s') => (Ok a, s')
    | (Err e, s') => h e s'
    end.

Declare Scope db_scope.
Delimit Scope db_scope with db.
Notation "x <- m ;; k" := (bind m (fun x => k))
  (at level 61, m at next level, right associativity) : db_scope.
Notation "m ;; k" := (bind m (fun _ => k))
  (at level 61, right associativity) : db_scope.
Open Scope db_scope.

(** [for (const x of l) { await body(x) }] *)
Fixpoint for_of {A} (body : A -> M unit) (l : list A) : M unit :=
  match l with
  | [] => ret tt
  | x :: rest => body x ;; for_of body rest
  end.

Definition emit (e : event) : M unit :=
  fun s =>
    (Ok tt, {| db := db s; index_db := index_db s; meta := meta s;
               meta_json := meta_json s; log := (log s ++ [e])%list |}).

(** *** The primary store, [this.db] *)

Definition db_put (key : operand) (document : document) : M unit :=
  match encode_key key with
  | None => throw InvalidKey
  | Some k =>
      fun s =>
        (Ok tt, {| db := store_put k document (db s); index_db := index_db s;
                   meta := meta s; meta_json := meta_json s;
                   log := (log s ++ [PrimaryPut k])%list |})
  end.

Definition db_get (key : operand) : M document :=
  match encode_key key with
  | None => throw InvalidKey
  | Some k =>
      emit PrimaryRead ;;
      fun s =>
        match store_get k (db s) with
        | Some document => (Ok document, s)
        | None => (Err NotFound, s)
        end
  end.

(** [getMany] answers [undefined], here [None], for a key it does not hold. *)
Definition db_getMany (keys : list string) : M (list (option document)) :=
  emit PrimaryRead ;;
  fun s => (Ok (map (fun k => store_get k (db s)) keys), s).

(** The entries [this.db.iterator()] goes through. *)
Definition db_iterator : M (store document) :=
  emit PrimaryRead ;;
  fun s => (Ok (db s), s).

(** *** A posting store, [indexDB] *)

Definition index_open (n : string) : M unit := emit (IndexOpen n).

Definition index_close (n : string) : M unit := emit (IndexClose n).

Definition index_get (n : string) (key : operand) : M (list string) :=
  match encode_key key with
  | None => throw InvalidKey
  | Some k =>
      emit (IndexRead n) ;;
      fun s =>
        match store_get k (index_db s n) with
        | Some value => (Ok value, s)
        | None => (Err NotFound, s)
        end
  end.

Definition index_put (n : string) (key : operand) (value : list string)
  : M unit :=
  match encode_key key with
  | None => throw InvalidKey
  | Some k =>
      fun s =>
        (Ok tt, {| db := db s;
                   index_db := fun n' =>
                     if n' =? n then store_put k value (index_db s n)
                     else index_db s n';
                   meta := meta s; meta_json := meta_json s;
                   log := (log s ++ [IndexWrite n])%list |})
  end.

(** [const it = indexDB.iterator(); it.seek(target)] *)
Definition index_seek (n : string) (target : string) : M (store (list string)) :=
  emit (IndexRead n) ;;
  fun s => (Ok (store_seek target (index_db s n)), s).

(** *** database.ts *)

(** [indexValue.includes(key)] *)
Definition includes (key : string) (indexValue : list string) : bool :=
  existsb (fun k => k =? key) indexValue.

Definition updateMeta : M unit :=
  fun s =>
    (Ok tt, {| db := db s; index_db := index_db s; meta := meta s;
               meta_json := Some (meta s); log := (log s ++ [MetaWrite])%list |}).

(** [this.meta.indexes[n] = def] *)
Definition set_meta (n : string) (def : IndexDef) : M unit :=
  fun s =>
    (Ok tt, {| db := db s; index_db := index_db s;
               meta := obj_set n def (meta s);
               meta_json := meta_json s; log := log s |}).

(** The body of the loop of [createIndex]. *)
Definition index_entry (index : IndexOptions) (entry : string * document)
  : M unit :=
  let (key, value) := entry in
  let indexKey := obj_get (field index) value in
  indexValue <- catch (index_get (name index) indexKey) (fun _ => ret []) ;;
  if negb (includes key indexValue)
  then index_put (name index) indexKey (indexValue ++ [key])%list
  else ret tt.

Definition createIndex (index : IndexOptions) : M unit :=
  index_open (name index) ;;
  (if (type index =? "number") || (type index =? "text")
   then entries <- db_iterator ;; for_of (index_entry index) entries
   else ret tt) ;;
  set_meta (name index)
           {| def_field := field index; def_type := type index |} ;;
  updateMeta ;;
  index_close (name index).

(** [for (const name in this.meta.indexes)
       await this.createIndex({ name, ...this.meta.indexes[name] })]:
    the names are those the object has when the loop starts; a name the
    object has lost when its turn comes is passed over. *)
Definition rebuild (n : string) : M unit :=
  fun s =>
    match obj_get n (meta s) with
    | Some def =>
        createIndex {| name := n; field := def_field def;
                       type := def_type def |} s
    | None => (Ok tt, s)
    end.

Definition rebuild_indexes : M unit :=
  fun s => for_of rebuild (map fst (meta s)) s.

Definition insert (key : operand) (document : document) : M unit :=
  db_put key document ;;
  rebuild_indexes.

Definition get (key : operand) : M document := db_get key.

(** The loop of the [$startsWith] branch of [search]. *)
Fixpoint scan (prefix : string) (keys : list string)
  (entries : store (list string)) : list string :=
  match entries with
  | [] => keys
  | (key, value) :: rest =>
      if String.prefix prefix key then scan prefix (keys ++ value)%list rest
      else keys
  end.

Definition search (search : Search) : M (list (option document)) :=
  index_open (index search) ;;
  keys <- match query_eq search with
          | Some v =>
              catch (index_get (index search) (Some (JStr v)))
                    (fun _ => ret [])
          | None => ret []
          end ;;
  keys <- match query_startsWith search with
          | Some p =>
              entries <- index_seek (index search) p ;;
              ret (scan p keys entries)
          | None => ret keys
          end ;;
  index_close (index search) ;;
  match keys with
  | [] => ret []
  | _ :: _ => db_getMany keys
  end.

(** What a transaction body does with the object it is handed: that
    object has the fields of the database and the one method [insert],
    so a body is a sequence of inserts, left by a [throw] or by its end. *)
Inductive action : Type :=
| Insert (key : operand) (document : document)
| Throw (e : error).

(** [_this.insert] *)
Definition transaction_insert (key : operand) (document : document) : M unit :=
  db_put key document.

Definition run_action (a : action) : M unit :=
  match a with
  | Insert key document => transaction_insert key document
  | Throw e => throw e
  end.

Definition callback (body : list action) : M unit := for_of run_action body.

Definition transaction (body : list action) : M unit :=
  callback body ;;
  rebuild_indexes.

(** The loop of [filter]: the entries the generator yields, and the
    exception that ends it when the callback raises one. *)
Fixpoint filter_loop (callback : string -> document -> result bool)
  (entries : store document) : store document * option error :=
  match entries with
  | [] => ([], None)
  | (key, value) :: rest =>
      match callback key value with
      | Err e => ([], Some e)
      | Ok true =>
          let (yielded, raised) := filter_loop callback rest in
          ((key, value) :: yielded, raised)
      | Ok false => filter_loop callback rest
      end
  end.

Definition filter (callback : string -> document -> result bool)
  : Database -> (store document * option error) * Database :=
  fun s =>
    (filter_loop callback (db s),
     {| db := db s; index_db := index_db s; meta := meta s;
        meta_json := meta_json s; log := (log s ++ [PrimaryRead])%list |}).

Definition find {cmp : JsCompare} (query : Query)
  : Database -> (store document * option error) * Database :=
  filter (fun _ value => match_ query value).

(** [open] and [close], for what they do besides opening and closing the
    primary store. *)
Definition open : M unit := updateMeta.

Definition close : M unit := updateMeta.

(** The state of [new Database(config)] over a [root] that holds
    [meta.json] or not, and the stores it finds there. *)
Definition new_Database (file : option (object IndexDef))
  (primary : store document) (postings : string -> store (list string))
  : Database :=
  {| db := primary; index_db := postings;
     meta := match file with Some m => m | None => [] end;
     meta_json := file; log := [] |}.

(** ** Notions the properties are stated with *)

(** The keys of a store ascend strictly. *)
Fixpoint ascending {V} (st : store V) : bool :=
  match st with
  | [] => true
  | (k, _) :: rest =>
      match rest with
      | [] => true
      | (k', _) :: _ => String.ltb k k' && ascending rest
      end
  end.

(** The posting list of an index key, empty when the store has none. *)
Definition posting (indexKey : string) (postings : store (list string))
  : list string :=
  match store_get indexKey postings with
  | Some keys => keys
  | None => []
  end.

(** What one turn of the loop of [createIndex] does to the posting store,
    for a document whose field value the store files under [indexKey]. *)
Definition post (key indexKey : string) (postings : store (list string))
  : store (list string) :=
  if includes key (posting indexKey postings) then postings
  else store_put indexKey (posting indexKey postings ++ [key])%list postings.

(** Every document has a value for [field] that a store takes as a key. *)
Definition indexable (field : string) (entries : store document) : bool :=
  forallb (fun kv => match encode_key (obj_get field (snd kv)) with
                     | Some _ => true
                     | None => false
                     end) entries.

(** The postings are those of the documents there are: a key is listed
    under the value its document has for [field], and nowhere else. *)
Definition current (field : string) (postings : store (list string))
  (entries : store document) : bool :=
  forallb (fun p =>
    forallb (fun k =>
      match store_get k entries with
      | Some d =>
          match encode_key (obj_get field d) with
          | Some indexKey => indexKey =? fst p
          | None => false
          end
      | None => false
      end) (snd p)) postings
  && forallb (fun kv =>
       match encode_key (obj_get field (snd kv)) with
       | Some indexKey => includes (fst kv) (posting indexKey postings)
       | None => false
       end) entries.

(** No posting list names a key twice. *)
Definition deduplicated (postings : store (list string)) : Prop :=
  forall indexKey, NoDup (posting indexKey postings).

(** The names of the posting stores opened, in order. *)
Fixpoint opened (l : list event) : list string :=
  match l with
  | [] => []
  | IndexOpen n :: rest => n :: opened rest
  | _ :: rest => opened rest
  end.

(** The loop of [createIndex] on the posting store, and whether it got
    through: it ends at the first document whose value for [field] the
    store rejects as a key. *)
Fixpoint fill (field : string) (entries : store document)
  (postings : store (list string)) : store (list string) * bool :=
  match entries with
  | [] => (postings, true)
  | (key, value) :: rest =>
      match encode_key (obj_get field value) with
      | Some indexKey => fill field rest (post key indexKey postings)
      | None => (postings, false)
      end
  end.

(** The documents the loop of [createIndex] gets to are posted: up to
    the first one the store has no key for, the key of each is listed
    under the value of its field. *)
Fixpoint covered (field : string) (entries : store document)
  (postings : store (list string)) : Prop :=
  match entries with
  | [] => True
  | (key, value) :: rest =>
      match encode_key (obj_get field value) with
      | Some indexKey =>
          In key (posting indexKey postings) /\ covered field rest postings
      | None => True
      end
  end.

(** What [createIndex] leaves in the posting store it opens, and whether
    its loop got through; a [type] the [switch] has no case for leaves
    the store as it was. *)
Definition rebuilt (index : IndexOptions) (s : Database)
  : store (list string) * bool :=
  if (type index =? "number") || (type index =? "text")
  then fill (field index) (db s) (index_db s (name index))
  else (index_db s (name index), true).

(** [s'] differs from [s] in the posting store [n] and in the reads and
    writes of it that the log records, at most. *)
Definition only_index (n : string) (s s' : Database) : Prop :=
  db s' = db s /\ meta s' = meta s /\ meta_json s' = meta_json s
  /\ (forall n', n' <> n -> index_db s' n' = index_db s n')
  /\ opened (log s') = opened (log s).

(** What a run of rebuilds may change: the primary store and the index
    definitions stay, posting lists only get longer, and stay free of
    repetitions and in key order where they were. *)
Definition rebuilds (s s' : Database) : Prop :=
  db s' = db s /\ meta s' = meta s
  /\ (forall n k indexKey,
        In k (posting indexKey (index_db s n)) ->
        In k (posting indexKey (index_db s' n)))
  /\ ((forall n, deduplicated (index_db s n)) ->
      forall n, deduplicated (index_db s' n))
  /\ ((forall n, ascending (index_db s n) = true) ->
      forall n, ascending (index_db s' n) = true).

(** The names of the posting stores closed, in order. *)
Fixpoint closed (l : list event) : list string :=
  match l with
  | [] => []
  | IndexClose n :: rest => n :: closed rest
  | _ :: rest => closed rest
  end.

(** Every key a posting store lists is a key of the primary store. *)
Definition sound (s : Database) : Prop :=
  forall n indexKey l k,
    In (indexKey, l) (index_db s n) -> In k l -> store_get k (db s) <> None.

(** The key [$or] is not among the keys. *)
Definition or_free (entries : list (string * QueryValue)) : bool :=
  forallb (fun kv => negb (fst kv =? "$or")) entries.

(** The answer of a callback of [filter] counts as [true]. *)
Definition accepted (callback : string -> document -> result bool)
  (kv : string * document) : bool :=
  match callback (fst kv) (snd kv) with
  | Ok true => true
  | _ => false
  end.

(** The methods a caller may invoke, and a caller that goes on after an
    exception. *)
Inductive call : Type :=
| CallInsert (key : operand) (document : document)
| CallCreateIndex (index : IndexOptions)
| CallTransaction (body : list action)
| CallSearch (search : Search)
| CallGet (key : operand).

Definition run_call (c : call) (s : Database) : Database :=
  match c with
  | CallInsert key document => snd (insert key document s)
  | CallCreateIndex index => snd (createIndex index s)
  | CallTransaction body => snd (transaction body s)
  | CallSearch sr => snd (search sr s)
  | CallGet key => snd (get key s)
  end.

Definition run_calls (cs : list call) (s : Database) : Database :=
  fold_left (fun s c => run_call c s) cs s.

(** The documents a transaction body has put in the primary store when
    it is left, in the order they were put. *)
Fixpoint written (body : list action) : list (string * document) :=
  match body with
  | [] => []
  | Insert key document :: rest =>
      match encode_key key with
      | Some k => (k, document) :: written rest
      | None => []
      end
  | Throw _ :: _ => []
  end.

Definition put_all (docs : list (string * document)) (st : store document)
  : store document :=
  fold_left (fun st kd => store_put (fst kd) (snd kd) st) docs st.


(** ** Examples *)

Definition empty_database : Database :=
  new_Database None [] (fun _ => []).

Definition node : document := [("title", JStr "Node")].
Definition zed : document := [("title", JStr "Zed")].
Definition node_js : document := [("title", JStr "Node JS Basics")].
Definition node_advanced : document := [("title", JStr "Node Advanced")].

Definition title_index : IndexOptions :=
  {| name := "title"; field := "title"; type := "text" |}.

Definition date_index : IndexOptions :=
  {| name := "created"; field := "created"; type := "date" |}.

(** Two documents under a text index on [title]. *)
Definition library : Database :=
  run_calls [CallCreateIndex title_index;
             CallInsert (Some (JStr "A")) node_js;
             CallInsert (Some (JStr "B")) node_advanced]
            empty_database.

(** A document indexed on [title] and then written again with another
    title. *)
Definition rewritten : Database :=
  run_calls [CallInsert (Some (JNum 1)) node;
             CallCreateIndex title_index;
             CallInsert (Some (JNum 1)) zed]
            empty_database.

(** A transaction body that inserts two documents, and one that raises
    after the first. *)
Definition two_inserts : list action :=
  [Insert (Some (JStr "C")) node; Insert (Some (JStr "D")) zed].

Definition insert_then_raise : list action :=
  [Insert (Some (JStr "C")) node; Throw (UserError "stop");
   Insert (Some (JStr "D")) zed].




(** Queries: a disjunction, and one whose [$or] is not a sequence. *)
Definition post_or_comment : Query :=
  MkQuery [("$or", QSeq [MkQuery [("type", QItem [("$eq", Some (JStr "comment"))])];
                         MkQuery [("type", QItem [("$eq", Some (JStr "post"))])]])].

Definition or_not_a_sequence : Query :=
  MkQuery [("age", QItem [("$gt", None)]);
           ("$or", QItem [("$eq", Some (JStr "post"))])].

Definition a_post : document := [("id", JNum 1); ("type", JStr "post")].

(* ================================================================== *)
(** * Part II: properties                                              *)
(* ================================================================== *)

(** ** Induction on queries *)

Lemma Query_nested_ind (P : Query -> Prop) :
  (forall entries,
      Forall (fun kv => match snd kv with
                        | QItem _ => True
                        | QSeq qs => Forall P qs
                        end) entries ->
      P (MkQuery entries)) ->
  forall q, P q.
Proof.
  intros H.
  fix IH 1.
  intros [entries]. apply H.
  induction entries as [|[key value] rest IHrest]; constructor; auto.
  destruct value as [item|qs]; simpl; [exact I|].
  induction qs as [|q qs IHqs]; constructor; auto.
Qed.

(** ** The loop of [match], one key at a time *)

Section QueryFacts.
Context {cmp : JsCompare}.


Lemma match_or_seq doc qs rest :
  match_ (MkQuery (("$or", QSeq qs) :: rest)) doc
  = some (fun q => match_ q doc) qs.
Proof. reflexivity. Qed.

Lemma match_or_item doc item rest :
  match_ (MkQuery (("$or", QItem item) :: rest)) doc
  = Err (InvalidQueryShape "Invalid query type for or. This must be an array").
Proof. reflexivity. Qed.

Lemma match_field_seq doc key qs rest :
  key <> "$or" ->
  match_ (MkQuery ((key, QSeq qs) :: rest)) doc
  = Err (InvalidQueryShape ("Invalid query type of " ++ key ++ ". Must be an object")).
Proof.
  intros Hk. apply String.eqb_neq in Hk. simpl. rewrite Hk. reflexivity.
Qed.

Lemma match_field_item doc key item rest :
  key <> "$or" ->
  match_ (MkQuery ((key, QItem item) :: rest)) doc
  = match obj_get key doc with
    | Some v => if evaluate item v then match_ (MkQuery rest) doc else Ok false
    | None => match_ (MkQuery rest) doc
    end.
Proof.
  intros Hk. apply String.eqb_neq in Hk. simpl. rewrite Hk.
  destruct (obj_get key doc) as [v|]; [|reflexivity].
  destruct (evaluate item v); reflexivity.
Qed.

Lemma key_or_dec (key : string) : key = "$or" \/ key <> "$or".
Proof. destruct (String.eqb_spec key "$or"); auto. Qed.





Lemma some_total {A} (f : A -> result bool) l :
  Forall (fun y => exists b, f y = Ok b) l -> exists b, some f l = Ok b.
Proof.
  induction 1 as [|a l [b Ha] _ IH]; simpl; [eauto|].
  rewrite Ha. destruct b; eauto.
Qed.




(** A query that respects the invariant of the data model never raises. *)
Lemma match_well_shaped_returns q doc :
  well_shaped q = true -> exists b, match_ q doc = Ok b.
Proof.
  revert doc. induction q as [entries IH] using Query_nested_ind.
  induction entries as [|[key value] rest IHrest]; intros doc Hw.
  - exists true. reflexivity.
  - inversion IH as [|? ? Hvalue Hrest]; subst. cbn [snd] in Hvalue.
    specialize (IHrest Hrest).
    cbn [well_shaped forallb fst snd] in Hw.
    apply andb_true_iff in Hw. destruct Hw as [Hkv Hw].
    destruct (key_or_dec key) as [-> | Hk].
    + cbn in Hkv. destruct value as [item|qs]; [discriminate|].
      rewrite match_or_seq. apply some_total.
      rewrite forallb_forall in Hkv. rewrite Forall_forall in *.
      intros x Hin. apply (Hvalue x Hin). apply Hkv, Hin.
    + pose proof Hk as Hk'. apply String.eqb_neq in Hk'. rewrite Hk' in Hkv.
      destruct value as [item|qs]; [|discriminate].
      rewrite (match_field_item _ _ _ Hk).
      destruct (obj_get key doc) as [v|]; [|apply IHrest, Hw].
      destruct (evaluate item v); [apply IHrest, Hw|eauto].
Qed.


End QueryFacts.

(** ** The matcher *)

Section MatcherProperties.
Context {cmp : JsCompare}.




(** C9: [evaluate] decides on the first key of the operator object
    that is one of [$eq], [$neq], [$gt]: strict equality with the
    operand for [$eq], its negation for [$neq], [value > operand] for
    [$gt], where an operand that is [undefined] counts as [0]; without
    such a key the answer is [false]. *)
Theorem evaluate_first_operator (item : QueryItem) (value : json) :
  match List.find (fun kv => is_operator (fst kv)) item with
  | None => evaluate item value = false
  | Some (key, o) =>
      (key = "$eq" /\ evaluate item value = strict_eq value o)
      \/ (key = "$neq" /\ evaluate item value = negb (strict_eq value o))
      \/ (key = "$gt"
          /\ evaluate item value
             = js_gt value (match o with
                            | None => JNum 0
                            | Some (JNum n) => JNum n
                            | Some v => or_zero (Some v)
                            end))
  end.
Proof.
  induction item as [|[key o] rest IH]; simpl; [reflexivity|].
  unfold is_operator; simpl.
  destruct (String.eqb_spec key "$eq") as [-> | E1]; simpl; [auto|].
  destruct (String.eqb_spec key "$neq") as [-> | E2]; simpl; [auto|].
  destruct (String.eqb_spec key "$gt") as [-> | E3]; simpl; [|exact IH].
  right. right. split; [reflexivity|].
  destruct o as [[| |n| | |]|]; try reflexivity.
  simpl. destruct (Z.eqb_spec n 0) as [->|]; reflexivity.
Qed.
End MatcherProperties.



(** ** The order of keys *)

Unset Implicit Arguments.

Lemma ascii_compare_refl c : Ascii.compare c c = Eq.
Proof. unfold Ascii.compare. apply N.compare_refl. Qed.

Lemma ascii_compare_eq c d : Ascii.compare c d = Eq -> c = d.
Proof.
  unfold Ascii.compare. intros H. apply N.compare_eq in H.
  rewrite <- (ascii_N_embedding c), <- (ascii_N_embedding d), H. reflexivity.
Qed.

Lemma ascii_compare_lt_trans c d e :
  Ascii.compare c d = Lt -> Ascii.compare d e = Lt -> Ascii.compare c e = Lt.
Proof.
  unfold Ascii.compare. rewrite !N.compare_lt_iff. apply N.lt_trans.
Qed.

Lemma compare_lt_trans a : forall b c,
  String.compare a b = Lt -> String.compare b c = Lt -> String.compare a c = Lt.
Proof.
  induction a as [|x a IH]; intros [|y b] [|z c]; simpl; try congruence.
  destruct (Ascii.compare x y) eqn:Exy; try discriminate;
    destruct (Ascii.compare y z) eqn:Eyz; try discriminate; intros H1 H2.
  - apply ascii_compare_eq in Exy, Eyz. subst.
    rewrite ascii_compare_refl. eapply IH; eassumption.
  - apply ascii_compare_eq in Exy. subst. rewrite Eyz. reflexivity.
  - apply ascii_compare_eq in Eyz. subst. rewrite Exy. reflexivity.
  - rewrite (ascii_compare_lt_trans _ _ _ Exy Eyz). reflexivity.
Qed.

Lemma ltb_lt a b : String.ltb a b = true <-> String.compare a b = Lt.
Proof.
  unfold String.ltb. destruct (String.compare a b); split; congruence.
Qed.

Lemma ltb_trans a b c :
  String.ltb a b = true -> String.ltb b c = true -> String.ltb a c = true.
Proof. rewrite !ltb_lt. apply compare_lt_trans. Qed.

Lemma compare_refl a : String.compare a a = Eq.
Proof.
  induction a as [|c a IH]; simpl; [reflexivity|].
  rewrite ascii_compare_refl. exact IH.
Qed.

Lemma ltb_irrefl a : String.ltb a a = false.
Proof. unfold String.ltb. rewrite compare_refl. reflexivity. Qed.

Lemma compare_gt_lt a b : String.compare a b = Gt -> String.compare b a = Lt.
Proof.
  intros H. rewrite String.compare_antisym, H. reflexivity.
Qed.

Lemma compare_neq a b : String.compare a b <> Eq -> (a =? b) = false.
Proof.
  intros H. apply String.eqb_neq. intros ->. apply H, compare_refl.
Qed.

(** A string that has the prefix is not below it. *)
Lemma prefix_not_below p : forall k,
  String.prefix p k = true -> String.ltb k p = false.
Proof.
  induction p as [|c p IH]; intros [|d k]; simpl; try reflexivity;
    try discriminate.
  destruct (ascii_dec c d) as [->|]; [|discriminate].
  intros H. specialize (IH k H). unfold String.ltb in *. simpl.
  rewrite ascii_compare_refl. exact IH.
Qed.

(** Above a string that is neither below the prefix nor has it, no
    string has it: those that have it are next to one another. *)
Lemma prefix_interval p : forall k0 k,
  String.ltb k0 p = false -> String.prefix p k0 = false ->
  String.ltb k0 k = true -> String.prefix p k = false.
Proof.
  induction p as [|c p IH]; intros k0 k Hlow Hpre Hlt;
    [destruct k0; discriminate|].
  destruct k as [|d k]; [reflexivity|].
  destruct k0 as [|d0 k0]; [discriminate|].
  simpl in *. unfold String.ltb in *. simpl in *.
  destruct (ascii_dec c d) as [<-|Hcd]; [|reflexivity].
  destruct (ascii_dec c d0) as [<-|Hcd0].
  - rewrite ascii_compare_refl in *. eapply IH; eassumption.
  - destruct (Ascii.compare d0 c) eqn:E0; try discriminate.
    apply ascii_compare_eq in E0. congruence.
Qed.

(** ** Stores *)

Section StoreFacts.
Context {V : Type}.
Implicit Types (st : store V) (k : string) (v : V).

Lemma store_get_put_same k v st : store_get k (store_put k v st) = Some v.
Proof.
  induction st as [|[k' v'] rest IH]; simpl.
  - rewrite String.eqb_refl. reflexivity.
  - destruct (String.compare k k') eqn:E; simpl.
    + rewrite String.eqb_refl. reflexivity.
    + rewrite String.eqb_refl. reflexivity.
    + rewrite String.eqb_sym, compare_neq by congruence. exact IH.
Qed.

Lemma store_get_put_other k k0 v st :
  k0 <> k -> store_get k0 (store_put k v st) = store_get k0 st.
Proof.
  intros Hne. induction st as [|[k' v'] rest IH]; simpl.
  - apply String.eqb_neq in Hne. rewrite String.eqb_sym, Hne. reflexivity.
  - destruct (String.compare k k') eqn:E; simpl.
    + apply String.compare_eq_iff in E. subst k'.
      apply String.eqb_neq in Hne. rewrite String.eqb_sym, Hne. reflexivity.
    + apply String.eqb_neq in Hne. rewrite (String.eqb_sym k k0), Hne.
      reflexivity.
    + rewrite IH. reflexivity.
Qed.

Lemma store_get_In k v st : store_get k st = Some v -> In (k, v) st.
Proof.
  induction st as [|[k' v'] rest IH]; simpl; [discriminate|].
  destruct (String.eqb_spec k' k) as [->|]; intros H.
  - injection H as ->. left. reflexivity.
  - right. apply IH, H.
Qed.

Lemma ascending_cons k v st :
  ascending ((k, v) :: st) = true
  <-> Forall (fun kv => String.ltb k (fst kv) = true) st
      /\ ascending st = true.
Proof.
  revert k v. induction st as [|[k' v'] rest IH]; intros k v.
  - simpl. split; auto.
  - change (ascending ((k, v) :: (k', v') :: rest))
      with (String.ltb k k' && ascending ((k', v') :: rest)).
    rewrite andb_true_iff. split.
    + intros [Hlt Hasc]. split; [|exact Hasc].
      constructor; [exact Hlt|].
      apply (IH k' v') in Hasc. destruct Hasc as [Hall _].
      eapply Forall_impl; [|exact Hall].
      intros kv. simpl. apply ltb_trans, Hlt.
    + intros [Hall Hasc]. inversion Hall; subst. auto.
Qed.

Lemma In_store_get k v st :
  ascending st = true -> In (k, v) st -> store_get k st = Some v.
Proof.
  induction st as [|[k' v'] rest IH]; [intros _ []|].
  intros Hasc. apply ascending_cons in Hasc. destruct Hasc as [Hall Hasc].
  simpl. intros [H|H].
  - injection H as -> ->. rewrite String.eqb_refl. reflexivity.
  - destruct (String.eqb_spec k' k) as [->|]; [|auto].
    rewrite Forall_forall in Hall. specialize (Hall _ H). simpl in Hall.
    rewrite ltb_irrefl in Hall. discriminate.
Qed.

Lemma store_put_keys k v st kv :
  In kv (store_put k v st) -> kv = (k, v) \/ In kv st.
Proof.
  induction st as [|[k' v'] rest IH]; simpl.
  - intros [H|[]]; auto.
  - destruct (String.compare k k'); simpl; intros [H|H]; auto.
    destruct (IH H); auto.
Qed.

Lemma store_put_ascending k v st :
  ascending st = true -> ascending (store_put k v st) = true.
Proof.
  induction st as [|[k' v'] rest IH]; [reflexivity|].
  intros Hasc. pose proof Hasc as Hasc'.
  apply ascending_cons in Hasc'. destruct Hasc' as [Hall Hrest].
  simpl. destruct (String.compare k k') eqn:E.
  - apply String.compare_eq_iff in E. subst k'.
    apply ascending_cons. auto.
  - apply ascending_cons. split; [|exact Hasc].
    apply ltb_lt in E. constructor; [exact E|].
    eapply Forall_impl; [|exact Hall].
    intros kv. simpl. apply ltb_trans, E.
  - apply ascending_cons. split; [|auto].
    apply Forall_forall. intros kv Hin.
    destruct (store_put_keys _ _ _ _ Hin) as [-> | Hin'].
    + simpl. apply ltb_lt, compare_gt_lt, E.
    + rewrite Forall_forall in Hall. auto.
Qed.
End StoreFacts.

(** ** The scan of [$startsWith] *)

Lemma scan_app p entries : forall keys,
  scan p keys entries = (keys ++ scan p [] entries)%list.
Proof.
  induction entries as [|[key value] rest IH]; intros keys; simpl.
  - rewrite app_nil_r. reflexivity.
  - destruct (String.prefix p key); [|rewrite app_nil_r; reflexivity].
    rewrite (IH (keys ++ value)%list), (IH value), app_assoc. reflexivity.
Qed.

Lemma filter_prefix_above p k0 (rest : store (list string)) :
  String.ltb k0 p = false -> String.prefix p k0 = false ->
  Forall (fun kv => String.ltb k0 (fst kv) = true) rest ->
  List.filter (fun kv => String.prefix p (fst kv)) rest = [].
Proof.
  intros Hlow Hp. induction 1 as [|[key value] rest Hlt _ IH]; [reflexivity|].
  cbn [List.filter fst]. cbn [fst] in Hlt.
  rewrite (prefix_interval p _ _ Hlow Hp Hlt). exact IH.
Qed.

Lemma not_below_above p k0 (rest : store (list string)) :
  String.ltb k0 p = false ->
  Forall (fun kv => String.ltb k0 (fst kv) = true) rest ->
  Forall (fun kv => String.ltb (fst kv) p = false) rest.
Proof.
  intros Hlow Hall. eapply Forall_impl; [|exact Hall].
  intros kv Hlt. destruct (String.ltb (fst kv) p) eqn:E; [|reflexivity].
  rewrite (ltb_trans _ _ _ Hlt E) in Hlow. discriminate.
Qed.

(** From the first key that is not below the prefix on, the loop
    collects the posting lists of the keys that have the prefix. *)
Lemma scan_from_first p (entries : store (list string)) :
  ascending entries = true ->
  Forall (fun kv => String.ltb (fst kv) p = false) entries ->
  scan p [] entries
  = flat_map snd (List.filter (fun kv => String.prefix p (fst kv)) entries).
Proof.
  induction entries as [|[key value] rest IH]; [reflexivity|].
  intros Hasc Hlow. apply ascending_cons in Hasc. destruct Hasc as [Hall Hasc].
  inversion Hlow as [|? ? Hkey Hrest]; subst. cbn [fst] in Hkey.
  cbn [scan List.filter fst]. destruct (String.prefix p key) eqn:Hp.
  - cbn [flat_map snd]. rewrite scan_app. cbn [app]. f_equal.
    apply IH; assumption.
  - rewrite (filter_prefix_above p _ _ Hkey Hp Hall). reflexivity.
Qed.

Lemma scan_seek p (postings : store (list string)) :
  ascending postings = true ->
  scan p [] (store_seek p postings)
  = flat_map snd (List.filter (fun kv => String.prefix p (fst kv)) postings).
Proof.
  induction postings as [|[key value] rest IH]; [reflexivity|].
  intros Hasc. pose proof Hasc as Hasc'.
  apply ascending_cons in Hasc'. destruct Hasc' as [Hall Hrest].
  cbn [store_seek List.filter fst]. destruct (String.ltb key p) eqn:Hlow.
  - destruct (String.prefix p key) eqn:Hp.
    + apply prefix_not_below in Hp. congruence.
    + apply IH, Hrest.
  - rewrite (scan_from_first p _ Hasc).
    + cbn [List.filter fst]. reflexivity.
    + constructor; [exact Hlow|]. eapply not_below_above; eassumption.
Qed.

(** ** The loop of [createIndex] *)

Lemma opened_app l1 l2 : opened (l1 ++ l2) = (opened l1 ++ opened l2)%list.
Proof.
  induction l1 as [|e l1 IH]; [reflexivity|].
  destruct e; simpl; rewrite IH; reflexivity.
Qed.

Lemma only_index_refl n s : only_index n s s.
Proof. unfold only_index. auto. Qed.

Lemma only_index_trans n s1 s2 s3 :
  only_index n s1 s2 -> only_index n s2 s3 -> only_index n s1 s3.
Proof.
  unfold only_index.
  intros (A1 & A2 & A3 & A4 & A5) (B1 & B2 & B3 & B4 & B5).
  repeat split; try congruence.
  intros n' Hn. rewrite B4, A4; auto.
Qed.

(** One turn: the key of the document is posted under the value of its
    field, or the store rejects that value and nothing is written. *)
Lemma index_entry_spec idx key (value : document) s :
  match encode_key (obj_get (field idx) value) with
  | Some indexKey =>
      exists s',
        index_entry idx (key, value) s = (Ok tt, s')
        /\ index_db s' (name idx) = post key indexKey (index_db s (name idx))
        /\ only_index (name idx) s s'
  | None => index_entry idx (key, value) s = (Err InvalidKey, s)
  end.
Proof.
  unfold index_entry, index_get, index_put, catch, bind, emit, ret, throw.
  destruct (encode_key (obj_get (field idx) value)) as [indexKey|];
    [|reflexivity].
  unfold post, posting. cbn [db index_db meta meta_json log].
  destruct (store_get indexKey (index_db s (name idx))) as [l|];
    cbn [negb]; destruct (includes key _); cbn [negb];
    eexists; (split; [reflexivity|]); cbn [db index_db meta meta_json log];
    unfold only_index; cbn [db index_db meta meta_json log];
    rewrite ?String.eqb_refl, ?opened_app; cbn [opened]; rewrite ?app_nil_r;
    repeat split; try reflexivity;
    intros n' Hn; apply String.eqb_neq in Hn; rewrite ?Hn; reflexivity.
Qed.

Lemma for_of_index_entry idx entries : forall s,
  exists s',
    for_of (index_entry idx) entries s
    = (if snd (fill (field idx) entries (index_db s (name idx)))
       then Ok tt else Err InvalidKey, s')
    /\ index_db s' (name idx)
       = fst (fill (field idx) entries (index_db s (name idx)))
    /\ only_index (name idx) s s'.
Proof.
  induction entries as [|[key value] rest IH]; intros s.
  - exists s. simpl. auto using only_index_refl.
  - pose proof (index_entry_spec idx key value s) as H.
    cbn [for_of fill]. unfold bind at 1.
    destruct (encode_key (obj_get (field idx) value)) as [indexKey|].
    + destruct H as (s1 & Hrun1 & Hps & Hframe).
      destruct (IH s1) as (s' & Hrun & Hps' & Hframe').
      exists s'. rewrite Hrun1, Hrun, Hps', Hps.
      split; [reflexivity|]. split; [reflexivity|].
      eapply only_index_trans; eassumption.
    + exists s. rewrite H. auto using only_index_refl.
Qed.

(** ** [createIndex] *)

Lemma createIndex_spec idx s :
  exists s',
    createIndex idx s
    = (if snd (rebuilt idx s) then Ok tt else Err InvalidKey, s')
    /\ index_db s' (name idx) = fst (rebuilt idx s)
    /\ db s' = db s
    /\ (forall n', n' <> name idx -> index_db s' n' = index_db s n')
    /\ opened (log s') = (opened (log s) ++ [name idx])%list
    /\ meta s'
       = (if snd (rebuilt idx s)
          then obj_set (name idx)
                 {| def_field := field idx; def_type := type idx |} (meta s)
          else meta s)
    /\ meta_json s' = (if snd (rebuilt idx s) then Some (meta s')
                       else meta_json s).
Proof.
  unfold rebuilt.
  cbv [createIndex bind index_open emit db_iterator ret set_meta updateMeta
       index_close].
  destruct ((type idx =? "number") || (type idx =? "text")).
  - cbn [db index_db meta meta_json log].
    match goal with
    | |- context [for_of ?f ?l ?st] =>
        destruct (for_of_index_entry idx l st)
          as (s2 & Hrun & Hps & H1 & H2 & H3 & H4 & H5)
    end.
    cbn [db index_db meta meta_json log] in *.
    rewrite Hrun, <- Hps.
    destruct (snd (fill (field idx) (db s) (index_db s (name idx)))).
    + eexists. split; [reflexivity|]. cbn [db index_db meta meta_json log].
      rewrite !opened_app, H5, !opened_app. cbn [opened].
      rewrite !app_nil_r, H2. auto 10.
    + exists s2. rewrite H5, !opened_app. cbn [opened].
      rewrite !app_nil_r. auto 10.
  - eexists. split; [reflexivity|]. cbn [db index_db meta meta_json log fst snd].
    rewrite !opened_app. cbn [opened]. rewrite !app_nil_r. auto 10.
Qed.

(** ** Posting lists *)

Lemma includes_In key l : includes key l = true <-> In key l.
Proof.
  unfold includes. rewrite existsb_exists. split.
  - intros (k & Hin & Hk). apply String.eqb_eq in Hk. subst. exact Hin.
  - intros Hin. exists key. split; [exact Hin|apply String.eqb_refl].
Qed.

Lemma posting_put_same indexKey l postings :
  posting indexKey (store_put indexKey l postings) = l.
Proof. unfold posting. rewrite store_get_put_same. reflexivity. Qed.

Lemma posting_put_other indexKey indexKey' l postings :
  indexKey' <> indexKey ->
  posting indexKey' (store_put indexKey l postings) = posting indexKey' postings.
Proof.
  intros H. unfold posting. rewrite store_get_put_other by exact H.
  reflexivity.
Qed.

(** A post adds the key at the end of one posting list if it is not in
    it, and does nothing else. *)
Lemma posting_post key indexKey indexKey' postings :
  posting indexKey' (post key indexKey postings)
  = if (indexKey' =? indexKey) && negb (includes key (posting indexKey postings))
    then (posting indexKey postings ++ [key])%list
    else posting indexKey' postings.
Proof.
  unfold post. destruct (includes key (posting indexKey postings)).
  - rewrite andb_false_r. reflexivity.
  - rewrite andb_true_r.
    destruct (String.eqb_spec indexKey' indexKey) as [-> | Hne].
    + apply posting_put_same.
    + apply posting_put_other, Hne.
Qed.

Lemma post_In key indexKey postings :
  In key (posting indexKey (post key indexKey postings)).
Proof.
  rewrite posting_post, String.eqb_refl. cbn [andb].
  destruct (includes key (posting indexKey postings)) eqn:E; cbn [negb].
  - apply includes_In, E.
  - apply in_or_app. right. left. reflexivity.
Qed.

Lemma post_grows key indexKey postings k indexKey' :
  In k (posting indexKey' postings) ->
  In k (posting indexKey' (post key indexKey postings)).
Proof.
  intros H. rewrite posting_post.
  destruct ((indexKey' =? indexKey)
            && negb (includes key (posting indexKey postings))) eqn:E;
    [|exact H].
  apply andb_true_iff in E. destruct E as [E _].
  apply String.eqb_eq in E. subst. apply in_or_app. left. exact H.
Qed.

Lemma post_included key indexKey postings :
  In key (posting indexKey postings) -> post key indexKey postings = postings.
Proof.
  intros H. apply includes_In in H. unfold post. rewrite H. reflexivity.
Qed.

Lemma post_deduplicated key indexKey postings :
  deduplicated postings -> deduplicated (post key indexKey postings).
Proof.
  intros Hd indexKey'. rewrite posting_post.
  destruct (indexKey' =? indexKey); cbn [andb]; [|apply Hd].
  destruct (includes key (posting indexKey postings)) eqn:E; cbn [negb];
    [apply Hd|].
  apply NoDup_app; [apply Hd|repeat constructor; intros []|].
  intros x Hx [<-|[]]. apply includes_In in Hx. congruence.
Qed.

Lemma post_ascending key indexKey postings :
  ascending postings = true -> ascending (post key indexKey postings) = true.
Proof.
  intros H. unfold post. destruct (includes key _); [exact H|].
  apply store_put_ascending, H.
Qed.

(** *** The whole loop *)

Lemma fill_grows field entries : forall postings k indexKey,
  In k (posting indexKey postings) ->
  In k (posting indexKey (fst (fill field entries postings))).
Proof.
  induction entries as [|[key value] rest IH]; intros postings k indexKey H;
    cbn [fill]; [exact H|].
  destruct (encode_key (obj_get field value)) as [ik|]; [|exact H].
  apply IH, post_grows, H.
Qed.

Lemma fill_through field entries : forall postings,
  snd (fill field entries postings) = indexable field entries.
Proof.
  induction entries as [|[key value] rest IH]; intros postings;
    cbn [fill indexable forallb snd]; [reflexivity|].
  destruct (encode_key (obj_get field value)) as [ik|]; [|reflexivity].
  rewrite IH. reflexivity.
Qed.

Lemma covered_post field key indexKey entries : forall postings,
  covered field entries postings ->
  covered field entries (post key indexKey postings).
Proof.
  induction entries as [|[k value] rest IH]; intros postings; cbn [covered];
    [auto|].
  destruct (encode_key (obj_get field value)) as [ik|]; [|auto].
  intros [H1 H2]. split; [apply post_grows, H1|apply IH, H2].
Qed.

Lemma covered_fill field entries0 entries : forall postings,
  covered field entries0 postings ->
  covered field entries0 (fst (fill field entries postings)).
Proof.
  induction entries as [|[key value] rest IH]; intros postings H; cbn [fill];
    [exact H|].
  destruct (encode_key (obj_get field value)) as [ik|]; [|exact H].
  apply IH, covered_post, H.
Qed.

Lemma fill_covers field entries : forall postings,
  covered field entries (fst (fill field entries postings)).
Proof.
  induction entries as [|[key value] rest IH]; intros postings;
    cbn [fill covered]; [exact I|].
  destruct (encode_key (obj_get field value)) as [ik|]; [|exact I].
  split; [apply fill_grows, post_In|apply IH].
Qed.

(** Over documents that are posted the loop writes nothing. *)
Lemma fill_covered field entries : forall postings,
  covered field entries postings ->
  fst (fill field entries postings) = postings.
Proof.
  induction entries as [|[key value] rest IH]; intros postings;
    cbn [fill covered]; [reflexivity|].
  destruct (encode_key (obj_get field value)) as [ik|]; [|reflexivity].
  intros [H1 H2]. rewrite (post_included _ _ _ H1). apply IH, H2.
Qed.

Lemma fill_deduplicated field entries : forall postings,
  deduplicated postings -> deduplicated (fst (fill field entries postings)).
Proof.
  induction entries as [|[key value] rest IH]; intros postings H; cbn [fill];
    [exact H|].
  destruct (encode_key (obj_get field value)) as [ik|]; [|exact H].
  apply IH, post_deduplicated, H.
Qed.

Lemma fill_ascending field entries : forall postings,
  ascending postings = true ->
  ascending (fst (fill field entries postings)) = true.
Proof.
  induction entries as [|[key value] rest IH]; intros postings H; cbn [fill];
    [exact H|].
  destruct (encode_key (obj_get field value)) as [ik|]; [|exact H].
  apply IH, post_ascending, H.
Qed.

(** ** The index definitions *)

Section ObjectFacts.
Context {A : Type}.
Implicit Types (o : object A) (key : string) (v : A).

Lemma obj_has_get key o :
  obj_has key o = true <-> exists v, obj_get key o = Some v.
Proof.
  induction o as [|[k v] rest IH]; cbn [obj_has obj_get existsb fst].
  - split; [discriminate|intros [v H]; discriminate].
  - destruct (k =? key); cbn [orb]; [|exact IH].
    split; eauto.
Qed.

Lemma obj_get_replace key v o :
  obj_has key o = true -> obj_get key (obj_replace key v o) = Some v.
Proof.
  induction o as [|[k v'] rest IH]; cbn [obj_has obj_replace existsb fst];
    [discriminate|].
  destruct (k =? key) eqn:E; cbn [orb obj_get]; rewrite E; auto.
Qed.

Lemma obj_replace_same key v o :
  obj_get key o = Some v -> obj_replace key v o = o.
Proof.
  induction o as [|[k v'] rest IH]; cbn [obj_get obj_replace];
    [reflexivity|].
  destruct (k =? key); intros H.
  - injection H as ->. reflexivity.
  - rewrite (IH H). reflexivity.
Qed.

Lemma obj_get_add_index n key v o :
  obj_has key o = false -> obj_get key (obj_add_index n key v o) = Some v.
Proof.
  induction o as [|[k v'] rest IH]; cbn [obj_has obj_add_index existsb fst].
  - intros _. cbn [obj_get]. rewrite String.eqb_refl. reflexivity.
  - intros H. apply orb_false_iff in H. destruct H as [Hk Hrest].
    destruct (array_index k) as [m|];
      [destruct (m <? n)%N|]; cbn [obj_get];
      rewrite ?String.eqb_refl, ?Hk; auto.
Qed.

Lemma obj_get_append key v o :
  obj_has key o = false -> obj_get key (o ++ [(key, v)])%list = Some v.
Proof.
  induction o as [|[k v'] rest IH]; cbn [obj_has existsb fst app obj_get].
  - rewrite String.eqb_refl. reflexivity.
  - intros H. apply orb_false_iff in H. destruct H as [Hk Hrest].
    rewrite Hk. auto.
Qed.

(** Reading a property after it is assigned gives what was assigned. *)
Lemma obj_get_set key v o : obj_get key (obj_set key v o) = Some v.
Proof.
  unfold obj_set. destruct (obj_has key o) eqn:E.
  - apply obj_get_replace, E.
  - destruct (array_index key); [apply obj_get_add_index|apply obj_get_append];
      exact E.
Qed.

(** Assigning to a property the value it has changes nothing. *)
Lemma obj_set_same key v o : obj_get key o = Some v -> obj_set key v o = o.
Proof.
  intros H. unfold obj_set.
  replace (obj_has key o) with true; [apply obj_replace_same, H|].
  symmetry. apply obj_has_get. eauto.
Qed.

Lemma obj_get_keys key o :
  In key (map fst o) -> exists v, obj_get key o = Some v.
Proof.
  induction o as [|[k v] rest IH]; cbn [map fst In obj_get]; [intros []|].
  destruct (String.eqb_spec k key) as [-> | Hne]; [eauto|].
  intros [H|H]; [contradiction|auto].
Qed.
End ObjectFacts.

(** ** Rebuilding the indexes *)

Lemma rebuilt_grows idx s k indexKey :
  In k (posting indexKey (index_db s (name idx))) ->
  In k (posting indexKey (fst (rebuilt idx s))).
Proof.
  unfold rebuilt. destruct ((type idx =? "number") || (type idx =? "text"));
    [apply fill_grows|auto].
Qed.

Lemma rebuilt_deduplicated idx s :
  deduplicated (index_db s (name idx)) -> deduplicated (fst (rebuilt idx s)).
Proof.
  unfold rebuilt. destruct ((type idx =? "number") || (type idx =? "text"));
    [apply fill_deduplicated|auto].
Qed.

Lemma rebuilt_ascending idx s :
  ascending (index_db s (name idx)) = true ->
  ascending (fst (rebuilt idx s)) = true.
Proof.
  unfold rebuilt. destruct ((type idx =? "number") || (type idx =? "text"));
    [apply fill_ascending|auto].
Qed.

(** [createIndex] writes to the posting store it opens only, and only
    by posting. *)
Lemma createIndex_postings idx s :
  db (snd (createIndex idx s)) = db s
  /\ (forall n k indexKey,
        In k (posting indexKey (index_db s n)) ->
        In k (posting indexKey (index_db (snd (createIndex idx s)) n)))
  /\ ((forall n, deduplicated (index_db s n)) ->
      forall n, deduplicated (index_db (snd (createIndex idx s)) n))
  /\ ((forall n, ascending (index_db s n) = true) ->
      forall n, ascending (index_db (snd (createIndex idx s)) n) = true).
Proof.
  destruct (createIndex_spec idx s) as (s' & -> & Hps & Hdb & Hother & _).
  cbn [snd]. split; [exact Hdb|].
  assert (Hcase : forall n, n = name idx \/ index_db s' n = index_db s n).
  { intros n. destruct (String.eqb_spec n (name idx)); auto. }
  repeat split.
  - intros n k indexKey H. destruct (Hcase n) as [-> | ->]; [|exact H].
    rewrite Hps. apply rebuilt_grows, H.
  - intros H n. destruct (Hcase n) as [-> | ->]; [|apply H].
    rewrite Hps. apply rebuilt_deduplicated, H.
  - intros H n. destruct (Hcase n) as [-> | ->]; [|apply H].
    rewrite Hps. apply rebuilt_ascending, H.
Qed.

Lemma rebuilds_refl s : rebuilds s s.
Proof. unfold rebuilds. auto. Qed.

Lemma rebuilds_trans s1 s2 s3 :
  rebuilds s1 s2 -> rebuilds s2 s3 -> rebuilds s1 s3.
Proof.
  unfold rebuilds.
  intros (A1 & A2 & A3 & A4 & A5) (B1 & B2 & B3 & B4 & B5).
  repeat split; try congruence; auto.
Qed.

Lemma rebuild_rebuilds n s : rebuilds s (snd (rebuild n s)).
Proof.
  unfold rebuild. destruct (obj_get n (meta s)) as [[f t]|] eqn:Hdef;
    [|apply rebuilds_refl].
  cbn [def_field def_type].
  destruct (createIndex_postings {| name := n; field := f; type := t |} s)
    as (Hdb & Hgrow & Hdedup & Hasc).
  destruct (createIndex_spec {| name := n; field := f; type := t |} s)
    as (s' & Hrun & _ & _ & _ & _ & Hmeta & _).
  rewrite Hrun in *. cbn [snd name field type] in *.
  repeat split; auto.
  rewrite Hmeta. destruct (snd _); [|reflexivity].
  apply obj_set_same, Hdef.
Qed.

Lemma for_of_rebuild_rebuilds names : forall s,
  rebuilds s (snd (for_of rebuild names s)).
Proof.
  induction names as [|n rest IH]; intros s; [apply rebuilds_refl|].
  cbn [for_of]. unfold bind.
  pose proof (rebuild_rebuilds n s) as H.
  destruct (rebuild n s) as [[[]|e] s1]; cbn [snd] in *; [|exact H].
  eapply rebuilds_trans; [exact H|apply IH].
Qed.

Lemma rebuild_indexes_rebuilds s : rebuilds s (snd (rebuild_indexes s)).
Proof. apply for_of_rebuild_rebuilds. Qed.

Lemma covered_grows field entries postings postings' :
  (forall k indexKey,
     In k (posting indexKey postings) -> In k (posting indexKey postings')) ->
  covered field entries postings -> covered field entries postings'.
Proof.
  intros Hgrow. induction entries as [|[key value] rest IH]; cbn [covered];
    [auto|].
  destruct (encode_key (obj_get field value)); [|auto].
  intros [H1 H2]. auto.
Qed.

(** A run of rebuilds that gets through opens the posting store of each
    name once, in order, and leaves every document posted in the stores
    of the indexes whose [type] the [switch] has a case for. *)
Lemma for_of_rebuild_ok names : forall s s',
  (forall n, In n names -> In n (map fst (meta s))) ->
  for_of rebuild names s = (Ok tt, s') ->
  opened (log s') = (opened (log s) ++ names)%list
  /\ forall n def,
       In n names -> obj_get n (meta s) = Some def ->
       (def_type def =? "number") || (def_type def =? "text") = true ->
       indexable (def_field def) (db s) = true
       /\ covered (def_field def) (db s) (index_db s' n).
Proof.
  induction names as [|n rest IH]; intros s s' Hnames Hrun.
  - injection Hrun as <-. cbn [for_of]. rewrite app_nil_r.
    split; [reflexivity|intros n def []].
  - cbn [for_of] in Hrun. unfold bind in Hrun.
    pose proof (for_of_rebuild_rebuilds rest (snd (rebuild n s))) as Hrest.
    pose proof (rebuild_rebuilds n s) as Hfirst.
    destruct (obj_get_keys n (meta s) (Hnames n (or_introl eq_refl)))
      as [[f t] Hdef].
    unfold rebuild in Hrun, Hrest, Hfirst. rewrite Hdef in *.
    cbn [def_field def_type] in *.
    destruct (createIndex_spec {| name := n; field := f; type := t |} s)
      as (s1 & Hrun1 & Hps & Hdb & _ & Hopen & _).
    rewrite Hrun1 in *. cbn [snd name field type] in *.
    destruct (snd (rebuilt _ s)) eqn:Hthrough; [|discriminate].
    rewrite Hrun in Hrest. cbn [snd] in Hrest.
    destruct Hfirst as (Hdb1 & Hmeta1 & _).
    assert (Hnames1 : forall n', In n' rest -> In n' (map fst (meta s1))).
    { intros n' Hn'. rewrite Hmeta1. apply Hnames. right. exact Hn'. }
    destruct (IH s1 s' Hnames1 Hrun) as [Hopened Hcov].
    split.
    + rewrite Hopened, Hopen, <- app_assoc. reflexivity.
    + intros n' def [<-|Hin] Hdef' Hrec.
      * rewrite Hdef in Hdef'. injection Hdef' as <-.
        cbn [def_field def_type] in *.
        unfold rebuilt in Hthrough, Hps. cbn [name field type] in *.
        rewrite Hrec in *. rewrite fill_through in Hthrough.
        split; [exact Hthrough|].
        destruct Hrest as (_ & _ & Hgrow & _).
        eapply covered_grows; [apply Hgrow|].
        rewrite Hps. apply fill_covers.
      * rewrite <- Hdb1. apply Hcov; [exact Hin|congruence|exact Hrec].
Qed.

(** ** [insert] and [get] *)

Lemma db_put_spec key document k s :
  encode_key key = Some k ->
  db_put key document s
  = (Ok tt, {| db := store_put k document (db s); index_db := index_db s;
               meta := meta s; meta_json := meta_json s;
               log := (log s ++ [PrimaryPut k])%list |}).
Proof. intros H. unfold db_put. rewrite H. reflexivity. Qed.

(** C2: after [insert(k, d)], whatever the indexes the metadata
    registers and whatever became of their rebuilds, [get(k)] returns
    [d]; [k] is a key the store takes. *)
Theorem insert_then_get (key : operand) (document : document) (s : Database)
  (k : string) :
  encode_key key = Some k ->
  fst (get key (snd (insert key document s))) = Ok document.
Proof.
  intros Hk. unfold insert, bind. rewrite (db_put_spec _ _ _ _ Hk).
  match goal with
  | |- context [rebuild_indexes ?s1] =>
      pose proof (rebuild_indexes_rebuilds s1) as (Hdb & _);
      destruct (rebuild_indexes s1) as [[[]|e] s2]
  end; cbn [snd db] in *;
    unfold get, db_get, bind, emit; rewrite Hk; cbn [db fst];
    rewrite Hdb, store_get_put_same; reflexivity.
Qed.

Lemma insert_then_get_witness :
  fst (get (Some (JNum 1))
         (snd (insert (Some (JNum 1)) node_js library)))
  = Ok node_js.
Proof. apply (insert_then_get (Some (JNum 1)) node_js library "1"). reflexivity. Defined.

(** ** [search] *)

(** C10: a search whose query has neither [$eq] nor [$startsWith]
    answers with the empty sequence; it opens and closes the posting
    store of the index, and does nothing else: the primary store is not
    read, no store is written. *)
Theorem search_without_operator (n : string) (s : Database) :
  let r := search {| index := n; query_eq := None; query_startsWith := None |} s
  in fst r = Ok []
     /\ log (snd r) = (log s ++ [IndexOpen n; IndexClose n])%list
     /\ db (snd r) = db s
     /\ index_db (snd r) = index_db s
     /\ meta (snd r) = meta s
     /\ meta_json (snd r) = meta_json s.
Proof.
  cbv [search bind index_open index_close emit ret index query_eq
       query_startsWith fst snd db index_db meta meta_json log].
  rewrite <- app_assoc. repeat split; reflexivity.
Qed.

(** The keys [search] collects and its answer. *)
Lemma search_result (sr : Search) (s : Database) :
  let postings := index_db s (index sr) in
  let eq_keys :=
    match query_eq sr with
    | Some v => match store_get v postings with
                | Some keys => keys
                | None => []
                end
    | None => []
    end in
  let startsWith_keys :=
    match query_startsWith sr with
    | Some p => scan p [] (store_seek p postings)
    | None => []
    end in
  fst (search sr s)
  = Ok (map (fun k => store_get k (db s)) (eq_keys ++ startsWith_keys)%list).
Proof.
  destruct sr as [n qe qs].
  cbv [search bind index_open index_close index_get index_seek catch emit ret
       db_getMany index query_eq query_startsWith encode_key to_String].
  cbn [db index_db meta meta_json log fst snd].
  destruct qe as [v|]; destruct qs as [p|];
    cbn [db index_db meta meta_json log fst snd];
    try destruct (store_get v (index_db s n)) as [l|];
    cbn [db index_db meta meta_json log fst snd app];
    rewrite ?app_nil_r; try rewrite (scan_app p _ l);
    first [ reflexivity
          | match goal with
            | |- context [match ?k with [] => _ | _ :: _ => _ end] =>
                destruct k; reflexivity
            end ].
Qed.


(** ** The body of a transaction *)

(** A body writes to the primary store and to nothing else: the posting
    stores, the index definitions and the metadata file are as they
    were, and no posting store is opened. *)
Lemma callback_spec body : forall s,
  db (snd (callback body s)) = put_all (written body) (db s)
  /\ index_db (snd (callback body s)) = index_db s
  /\ meta (snd (callback body s)) = meta s
  /\ meta_json (snd (callback body s)) = meta_json s
  /\ opened (log (snd (callback body s))) = opened (log s).
Proof.
  induction body as [|[key document|e] rest IH]; intros s.
  - cbn. auto.
  - unfold callback in *. cbn [for_of written]. unfold bind.
    cbn [run_action]. unfold transaction_insert, db_put.
    destruct (encode_key key) as [k|]; [|cbn; auto].
    match goal with
    | |- context [for_of run_action rest ?s1] =>
        destruct (IH s1) as (H1 & H2 & H3 & H4 & H5)
    end.
    cbn [db index_db meta meta_json log] in *.
    rewrite H1, H2, H3, H4, H5, opened_app. cbn [opened put_all fold_left fst snd].
    rewrite app_nil_r. auto.
  - cbn. auto.
Qed.

Lemma callback_through body : forall s s',
  callback body s = (Ok tt, s') ->
  forall key document, In (Insert key document) body ->
  exists k, encode_key key = Some k /\ In (k, document) (written body).
Proof.
  induction body as [|[key document|e] rest IH]; intros s s' Hrun key' document'.
  - intros [].
  - unfold callback in *. cbn [for_of written] in *. unfold bind in Hrun.
    cbn [run_action] in Hrun. unfold transaction_insert, db_put in Hrun.
    destruct (encode_key key) as [k|] eqn:Hk; [|discriminate].
    intros [H|H].
    + injection H as <- <-. exists k. split; [exact Hk|left; reflexivity].
    + destruct (IH _ _ Hrun _ _ H) as (k' & Hk' & Hin).
      exists k'. split; [exact Hk'|right; exact Hin].
  - discriminate.
Qed.


Lemma transaction_body_returns body s s1 :
  callback body s = (Ok tt, s1) ->
  transaction body s = rebuild_indexes s1.
Proof. intros H. unfold transaction, bind. rewrite H. reflexivity. Qed.

(** ** What the methods do to the posting stores *)

Lemma search_frame sr s :
  db (snd (search sr s)) = db s
  /\ index_db (snd (search sr s)) = index_db s
  /\ meta (snd (search sr s)) = meta s
  /\ meta_json (snd (search sr s)) = meta_json s.
Proof.
  destruct sr as [n qe qs].
  cbv [search bind index_open index_close index_get index_seek catch emit ret
       db_getMany index query_eq query_startsWith encode_key to_String].
  cbn [db index_db meta meta_json log fst snd].
  destruct qe as [v|]; destruct qs as [p|];
    cbn [db index_db meta meta_json log fst snd];
    try destruct (store_get v (index_db s n)) as [l|];
    cbn [db index_db meta meta_json log fst snd app];
    first [ solve [auto]
          | match goal with
            | |- context [match ?k with [] => _ | _ :: _ => _ end] =>
                destruct k; cbn [db index_db meta meta_json log fst snd]; auto
            end ].
Qed.

Lemma get_frame key s :
  db (snd (get key s)) = db s
  /\ index_db (snd (get key s)) = index_db s
  /\ meta (snd (get key s)) = meta s
  /\ meta_json (snd (get key s)) = meta_json s.
Proof.
  unfold get, db_get, bind, emit, throw.
  destruct (encode_key key) as [k|]; cbn [db index_db meta meta_json log snd];
    [destruct (store_get k (db s))|]; cbn; auto.
Qed.

Lemma insert_rebuilds key document s :
  (forall n k indexKey,
     In k (posting indexKey (index_db s n)) ->
     In k (posting indexKey (index_db (snd (insert key document s)) n)))
  /\ ((forall n, deduplicated (index_db s n)) ->
      forall n, deduplicated (index_db (snd (insert key document s)) n))
  /\ ((forall n, ascending (index_db s n) = true) ->
      forall n, ascending (index_db (snd (insert key document s)) n) = true).
Proof.
  unfold insert, bind, db_put, throw.
  destruct (encode_key key) as [k|]; [|cbn [snd]; auto].
  match goal with
  | |- context [rebuild_indexes ?s1] =>
      pose proof (rebuild_indexes_rebuilds s1) as (_ & _ & H1 & H2 & H3);
      destruct (rebuild_indexes s1) as [[[]|e] s2]
  end; cbn [snd db index_db] in *; auto.
Qed.

Lemma transaction_rebuilds body s :
  (forall n k indexKey,
     In k (posting indexKey (index_db s n)) ->
     In k (posting indexKey (index_db (snd (transaction body s)) n)))
  /\ ((forall n, deduplicated (index_db s n)) ->
      forall n, deduplicated (index_db (snd (transaction body s)) n))
  /\ ((forall n, ascending (index_db s n) = true) ->
      forall n, ascending (index_db (snd (transaction body s)) n) = true).
Proof.
  destruct (callback_spec body s) as (_ & Hix & _).
  unfold transaction, bind.
  destruct (callback body s) as [[[]|e] s1]; cbn [snd] in *; rewrite <- Hix;
    [|auto].
  pose proof (rebuild_indexes_rebuilds s1) as (_ & _ & H1 & H2 & H3).
  destruct (rebuild_indexes s1) as [[[]|e] s2]; cbn [snd] in *; auto.
Qed.

(** No method takes a key off a posting list, puts one on twice, or
    breaks the order of a posting store. *)
Lemma run_call_postings c s :
  (forall n k indexKey,
     In k (posting indexKey (index_db s n)) ->
     In k (posting indexKey (index_db (run_call c s) n)))
  /\ ((forall n, deduplicated (index_db s n)) ->
      forall n, deduplicated (index_db (run_call c s) n))
  /\ ((forall n, ascending (index_db s n) = true) ->
      forall n, ascending (index_db (run_call c s) n) = true).
Proof.
  destruct c as [key document|idx|body|sr|key]; cbn [run_call].
  - apply insert_rebuilds.
  - apply createIndex_postings.
  - apply transaction_rebuilds.
  - destruct (search_frame sr s) as (_ & -> & _). auto.
  - destruct (get_frame key s) as (_ & -> & _). auto.
Qed.

Lemma run_calls_postings cs : forall s,
  (forall n k indexKey,
     In k (posting indexKey (index_db s n)) ->
     In k (posting indexKey (index_db (run_calls cs s) n)))
  /\ ((forall n, deduplicated (index_db s n)) ->
      forall n, deduplicated (index_db (run_calls cs s) n))
  /\ ((forall n, ascending (index_db s n) = true) ->
      forall n, ascending (index_db (run_calls cs s) n) = true).
Proof.
  induction cs as [|c cs IH]; intros s; [cbn; auto|].
  unfold run_calls in *. cbn [fold_left].
  destruct (run_call_postings c s) as (A1 & A2 & A3).
  destruct (IH (run_call c s)) as (B1 & B2 & B3).
  repeat split; auto.
Qed.

(** ** Idempotence and deduplication *)

Lemma createIndex_again idx s :
  fst (createIndex idx (snd (createIndex idx s))) = fst (createIndex idx s)
  /\ forall n,
       index_db (snd (createIndex idx (snd (createIndex idx s)))) n
       = index_db (snd (createIndex idx s)) n.
Proof.
  destruct (createIndex_spec idx s) as (s1 & -> & Hps & Hdb & Hother & _).
  cbn [snd fst].
  destruct (createIndex_spec idx s1) as (s2 & -> & Hps' & _ & Hother' & _).
  cbn [snd fst].
  assert (Hsame : rebuilt idx s1 = rebuilt idx s).
  { unfold rebuilt in *. rewrite Hdb, Hps.
    destruct ((type idx =? "number") || (type idx =? "text")); [|reflexivity].
    rewrite (surjective_pairing (fill _ _ (fst _))),
            (surjective_pairing (fill _ _ (index_db s _))).
    rewrite !fill_through, fill_covered by apply fill_covers. reflexivity. }
  rewrite Hsame. split; [reflexivity|].
  intros n. destruct (String.eqb_spec n (name idx)) as [-> | Hne].
  - rewrite Hps', Hsame, Hps. reflexivity.
  - apply Hother', Hne.
Qed.

(** C4: a second [createIndex] with the same parameters, the primary
    store being as it was, ends as the first did and leaves every
    posting list as the first left it; and whatever the methods called
    and however often, a posting list that names no key twice never
    comes to name one twice. *)
Theorem createIndex_idempotent (idx : IndexOptions) (s : Database)
  (calls : list call) :
  (fst (createIndex idx (snd (createIndex idx s))) = fst (createIndex idx s)
   /\ forall n,
        index_db (snd (createIndex idx (snd (createIndex idx s)))) n
        = index_db (snd (createIndex idx s)) n)
  /\ ((forall n, deduplicated (index_db s n)) ->
      forall n, deduplicated (index_db (run_calls calls s) n)).
Proof.
  split; [apply createIndex_again|apply run_calls_postings].
Qed.

Lemma createIndex_idempotent_witness :
  NoDup (posting "Node"
           (index_db (run_calls [CallInsert (Some (JNum 1)) node;
                                 CallCreateIndex title_index;
                                 CallInsert (Some (JNum 1)) node;
                                 CallCreateIndex title_index]
                                empty_database) "title")).
Proof.
  apply (createIndex_idempotent title_index empty_database).
  intros n indexKey. constructor.
Defined.

(** ** The kinds of index *)

Lemma covered_all field entries postings :
  indexable field entries = true ->
  covered field entries postings ->
  forall k (d : document), In (k, d) entries ->
  exists indexKey,
    encode_key (obj_get field d) = Some indexKey
    /\ In k (posting indexKey postings).
Proof.
  induction entries as [|[key value] rest IH]; cbn [indexable forallb covered snd];
    [intros _ _ k d []|].
  destruct (encode_key (obj_get field value)) as [ik|] eqn:E; [|discriminate].
  cbn [andb]. intros Hrest [Hin Hcov] k d [H|H].
  - injection H as <- <-. eauto.
  - apply (IH Hrest Hcov k d H).
Qed.


(** C7, as the claim has it, fails: [createIndex] with a [type] that is
    neither ["text"] nor ["number"] returns without an exception, and
    the definition is in the metadata afterwards. *)
Lemma createIndex_kind_counterexample :
  type date_index <> "text" /\ type date_index <> "number"
  /\ fst (createIndex date_index empty_database) = Ok tt
  /\ obj_get "created" (meta (snd (createIndex date_index empty_database)))
     = Some {| def_field := "created"; def_type := "date" |}.
Proof. repeat split; discriminate. Qed.

(** C7, amended: [createIndex] has no exception for the kind; with a
    [type] the [switch] has no case for it leaves the posting stores as
    they are, with ["text"] or ["number"], and documents that all have
    a value for the field that the store takes as a key, it posts every
    document; in both cases it returns, the definition is recorded in
    the metadata, and the metadata is written to its file. *)
Theorem createIndex_kinds (idx : IndexOptions) (s : Database) :
  (type idx =? "number") || (type idx =? "text") = false
  \/ indexable (field idx) (db s) = true ->
  fst (createIndex idx s) = Ok tt
  /\ obj_get (name idx) (meta (snd (createIndex idx s)))
     = Some {| def_field := field idx; def_type := type idx |}
  /\ meta_json (snd (createIndex idx s))
     = Some (meta (snd (createIndex idx s)))
  /\ if (type idx =? "number") || (type idx =? "text")
     then forall k (d : document), In (k, d) (db s) ->
          exists indexKey,
            encode_key (obj_get (field idx) d) = Some indexKey
            /\ In k (posting indexKey
                       (index_db (snd (createIndex idx s)) (name idx)))
     else forall n, index_db (snd (createIndex idx s)) n = index_db s n.
Proof.
  intros H.
  destruct (createIndex_spec idx s)
    as (s' & -> & Hps & Hdb & Hother & _ & Hmeta & Hjson).
  cbn [fst snd]. unfold rebuilt in *.
  destruct ((type idx =? "number") || (type idx =? "text")) eqn:Hrec.
  - destruct H as [H|H]; [discriminate|].
    rewrite fill_through, H in *.
    split; [reflexivity|]. split; [rewrite Hmeta; apply obj_get_set|].
    split; [exact Hjson|].
    intros k d Hin. rewrite Hps.
    apply (covered_all (field idx) (db s)); [exact H|apply fill_covers|exact Hin].
  - cbn [fst snd] in *.
    split; [reflexivity|]. split; [rewrite Hmeta; apply obj_get_set|].
    split; [exact Hjson|].
    intros n. destruct (String.eqb_spec n (name idx)) as [-> | Hne]; auto.
Qed.

Lemma createIndex_kinds_witness :
  fst (createIndex title_index rewritten) = Ok tt
  /\ obj_get "title" (meta (snd (createIndex title_index rewritten)))
     = Some {| def_field := "title"; def_type := "text" |}.
Proof.
  destruct (createIndex_kinds title_index rewritten) as (H1 & H2 & _).
  - right. reflexivity.
  - split; [exact H1|exact H2].
Defined.

(** ** The prefix search *)


Lemma current_listed field postings entries indexKey l k :
  current field postings entries = true ->
  In (indexKey, l) postings -> In k l ->
  exists d, store_get k entries = Some d
            /\ encode_key (obj_get field d) = Some indexKey.
Proof.
  unfold current. rewrite andb_true_iff. intros [H _] Hin Hk.
  rewrite forallb_forall in H. specialize (H _ Hin). cbn [fst snd] in H.
  rewrite forallb_forall in H. specialize (H _ Hk).
  destruct (store_get k entries) as [d|]; [|discriminate].
  destruct (encode_key (obj_get field d)) as [ik|] eqn:E; [|discriminate].
  apply String.eqb_eq in H. subst. eauto.
Qed.






(** ** Transactions *)

Lemma obj_get_In_keys {A} key (o : object A) v :
  obj_get key o = Some v -> In key (map fst o).
Proof.
  induction o as [|[k v'] rest IH]; cbn [obj_get map fst In]; [discriminate|].
  destruct (String.eqb_spec k key); auto.
Qed.


(** What a transaction whose body returns leaves behind. *)
Lemma transaction_returns body s s' :
  transaction body s = (Ok tt, s') ->
  db s' = put_all (written body) (db s)
  /\ opened (log s') = (opened (log s) ++ map fst (meta s))%list
  /\ forall key document, In (Insert key document) body ->
     exists k,
       encode_key key = Some k
       /\ In (k, document) (written body)
       /\ (store_get k (db s') = Some document ->
           forall n def,
             obj_get n (meta s) = Some def ->
             (def_type def =? "number") || (def_type def =? "text") = true ->
             exists indexKey,
               encode_key (obj_get (def_field def) document) = Some indexKey
               /\ In k (posting indexKey (index_db s' n))
               /\ exists docs,
                    fst (search {| index := n; query_eq := Some indexKey;
                                   query_startsWith := None |} s') = Ok docs
                    /\ In (Some document) docs).
Proof.
  intros Hrun.
  destruct (callback_spec body s) as (Hdb & Hix & Hmeta & _ & Hopen).
  pose proof (callback_through body s) as Hthrough.
  unfold transaction, bind in Hrun.
  destruct (callback body s) as [[[]|e] s1]; [|discriminate].
  cbn [snd] in *. specialize (Hthrough s1 eq_refl).
  pose proof (rebuild_indexes_rebuilds s1) as (Hdb' & _).
  rewrite Hrun in Hdb'. cbn [snd] in Hdb'.
  unfold rebuild_indexes in Hrun.
  apply for_of_rebuild_ok in Hrun; [|auto]. destruct Hrun as [Hopened Hposted].
  split; [congruence|]. split; [congruence|].
  intros key document Hin.
  destruct (Hthrough key document Hin) as (k & Hk & Hw).
  exists k. split; [exact Hk|]. split; [exact Hw|].
  intros Hget n def Hdef Hrec.
  rewrite <- Hmeta in Hdef.
  destruct (Hposted n def (obj_get_In_keys _ _ _ Hdef) Hdef Hrec)
    as [Hable Hcov].
  rewrite Hdb' in Hget. pose proof (store_get_In _ _ _ Hget) as Hgin.
  destruct (covered_all _ _ _ Hable Hcov k document Hgin)
    as (indexKey & Henc & Hpost).
  exists indexKey. split; [exact Henc|]. split; [exact Hpost|].
  eexists. split; [apply search_result|].
  cbn [index query_eq query_startsWith]. rewrite app_nil_r.
  apply in_map_iff. exists k. split.
  - rewrite Hdb'. exact Hget.
  - exact Hpost.
Qed.




(* ================================================================== *)
(** * Part III: further properties of the code                         *)
(* ================================================================== *)

(** ** query.ts *)

(** X1: [match] raises on no query that keeps to the shape of the type
    [Query], a sequence of queries under [$or] and an operator object
    under any other key, at any depth: it returns a boolean. *)
Theorem match_total_on_well_shaped (q : Query) (doc : document) :
  well_shaped q = true -> exists b, match_ q doc = Ok b.
Proof. apply match_well_shaped_returns. Qed.

Lemma match_total_on_well_shaped_witness :
  exists b, match_ post_or_comment a_post = Ok b.
Proof.
  apply (match_total_on_well_shaped post_or_comment a_post). reflexivity.
Defined.

(** X2: the keys that follow [$or] in a query have no part in the
    result, be it a boolean or an exception: the query stands for its
    [$or] alone. *)
Theorem match_or_ignores_siblings (value : QueryValue)
  (rest : list (string * QueryValue)) (doc : document) :
  match_ (MkQuery (("$or", value) :: rest)) doc
  = match_ (MkQuery [("$or", value)]) doc.
Proof.
  destruct value as [item|qs].
  - rewrite !match_or_item. reflexivity.
  - rewrite !match_or_seq. reflexivity.
Qed.

(** X3: up to its first [$or] a query is a conjunction: when the keys
    [before] have no [$or] among them, the query [before ++ after]
    gives what [after] gives if [before] matches, and what [before]
    gives otherwise ([false], or its exception). *)
Theorem match_conjunction (before after : list (string * QueryValue))
  (doc : document) :
  or_free before = true ->
  match_ (MkQuery (before ++ after)) doc
  = match match_ (MkQuery before) doc with
    | Ok true => match_ (MkQuery after) doc
    | r => r
    end.
Proof.
  induction before as [|[key value] rest IH]; intros Hfree; [reflexivity|].
  cbn [or_free forallb fst] in Hfree.
  apply andb_true_iff in Hfree. destruct Hfree as [Hk Hfree].
  apply negb_true_iff, String.eqb_neq in Hk.
  specialize (IH Hfree). cbn [app].
  destruct value as [item|qs].
  - rewrite !(match_field_item _ _ _ Hk).
    destruct (obj_get key doc) as [v|]; [|exact IH].
    destruct (evaluate item v); [exact IH|reflexivity].
  - rewrite !(match_field_seq _ _ _ Hk). reflexivity.
Qed.

Lemma match_conjunction_witness :
  match_ (MkQuery ([("id", QItem [("$gt", None)])]
                   ++ [("type", QItem [("$eq", Some (JStr "post"))])]))
         a_post
  = Ok true.
Proof.
  rewrite (match_conjunction [("id", QItem [("$gt", None)])]
             [("type", QItem [("$eq", Some (JStr "post"))])] a_post);
    reflexivity.
Defined.



(** X5: on the same operand [$neq] answers the opposite of [$eq],
    whatever other keys follow in the two operator objects; and [$gt]
    on two numbers is their order. *)
Theorem evaluate_operators [cmp : JsCompare] (o : operand) (value : json)
  (rest rest' : QueryItem) (n m : Z) :
  evaluate (("$neq", o) :: rest) value
  = negb (evaluate (("$eq", o) :: rest') value)
  /\ evaluate (("$gt", Some (JNum n)) :: rest) (JNum m) = (n <? m)%Z.
Proof.
  split; [reflexivity|].
  cbn [evaluate String.eqb Ascii.eqb Bool.eqb]. cbn.
  destruct (Z.eqb_spec n 0) as [-> | Hn]; cbn; apply js_gt_num.
Qed.

(** ** [find] and [filter] *)

Lemma filter_loop_returns callback entries :
  Forall (fun kv => exists b, callback (fst kv) (snd kv) = Ok b) entries ->
  filter_loop callback entries = (List.filter (accepted callback) entries, None).
Proof.
  induction 1 as [|[key value] rest [b Hb] _ IH]; [reflexivity|].
  cbn [filter_loop List.filter]. unfold accepted at 1. cbn [fst snd] in *.
  rewrite Hb, IH. destruct b; reflexivity.
Qed.

Lemma filter_loop_raises callback before key value after e :
  Forall (fun kv => exists b, callback (fst kv) (snd kv) = Ok b) before ->
  callback key value = Err e ->
  filter_loop callback (before ++ (key, value) :: after)%list
  = (List.filter (accepted callback) before, Some e).
Proof.
  intros Hbefore Hraise.
  induction Hbefore as [|[k v] rest [b Hb] _ IH]; cbn [app filter_loop].
  - rewrite Hraise. reflexivity.
  - cbn [List.filter]. unfold accepted at 1. cbn [fst snd] in *.
    rewrite Hb, IH. destruct b; reflexivity.
Qed.

(** X6: for a query that keeps to the shape of [Query], [find] yields
    the entries of the primary store whose document the query matches,
    in the order of their keys, and ends without an exception; it reads
    the primary store and changes nothing. *)
Theorem find_yields_matches (q : Query) (s : Database) :
  well_shaped q = true ->
  fst (find q s)
  = (List.filter (fun kv => match match_ q (snd kv) with
                            | Ok true => true
                            | _ => false
                            end) (db s), None)
  /\ db (snd (find q s)) = db s
  /\ index_db (snd (find q s)) = index_db s
  /\ log (snd (find q s)) = (log s ++ [PrimaryRead])%list.
Proof.
  intros Hw. unfold find, filter. cbn [fst snd db index_db log].
  split; [|auto].
  apply (filter_loop_returns (fun _ value => match_ q value)).
  apply Forall_forall. intros [key value] _. cbn [snd].
  apply match_well_shaped_returns, Hw.
Qed.

Lemma find_yields_matches_witness :
  fst (find post_or_comment
         (snd (insert (Some (JNum 1)) a_post empty_database)))
  = ([("1", a_post)], None).
Proof.
  apply (find_yields_matches post_or_comment
           (snd (insert (Some (JNum 1)) a_post empty_database))).
  reflexivity.
Defined.

(** X7: [filter] ends with the first exception of its callback: the
    entries before it are yielded if the callback accepted them, the
    entries after it are not looked at. *)
Theorem filter_stops_at_exception
  (callback : string -> document -> result bool) (s : Database)
  (before after : store document) (key : string) (value : document)
  (e : error) :
  db s = (before ++ (key, value) :: after)%list ->
  Forall (fun kv => exists b, callback (fst kv) (snd kv) = Ok b) before ->
  callback key value = Err e ->
  fst (filter callback s) = (List.filter (accepted callback) before, Some e).
Proof.
  intros Hdb Hbefore Hraise. unfold filter. cbn [fst]. rewrite Hdb.
  apply filter_loop_raises; assumption.
Qed.

Lemma filter_stops_at_exception_witness :
  fst (filter (fun _ value => match_ or_not_a_sequence value) library)
  = ([], Some (InvalidQueryShape
                 "Invalid query type for or. This must be an array")).
Proof.
  apply (filter_stops_at_exception
           (fun _ value => match_ or_not_a_sequence value) library
           [] [("B", node_advanced)] "A" node_js).
  - reflexivity.
  - constructor.
  - reflexivity.
Defined.

(** ** [get] and [insert] *)

(** X8: [get] raises what the store raises: on a key the store rejects
    it does not reach the store, on a key the store does not hold it
    ends with the store's not-found; in both cases the stores and the
    metadata are as they were. *)
Theorem get_raises (key : operand) (s : Database) :
  match encode_key key with
  | None => get key s = (Err InvalidKey, s)
  | Some k =>
      store_get k (db s) = None ->
      fst (get key s) = Err NotFound
      /\ db (snd (get key s)) = db s
      /\ index_db (snd (get key s)) = index_db s
      /\ meta (snd (get key s)) = meta s
  end.
Proof.
  unfold get, db_get, bind, emit, throw.
  destruct (encode_key key) as [k|]; [|reflexivity].
  cbn [db]. intros ->. cbn. auto.
Qed.

Lemma get_raises_witness :
  fst (get (Some (JStr "Z")) library) = Err NotFound.
Proof.
  apply (get_raises (Some (JStr "Z")) library). reflexivity.
Defined.

(** X9: [insert] with a key the store rejects, [null] or [undefined],
    ends with the store's exception before anything is written: the
    database is as it was, and no index is rebuilt. *)
Theorem insert_rejected_key (key : operand) (document : document)
  (s : Database) :
  encode_key key = None -> insert key document s = (Err InvalidKey, s).
Proof.
  intros H. unfold insert, bind, db_put. rewrite H. reflexivity.
Qed.

Lemma insert_rejected_key_witness :
  insert (Some JNull) node library = (Err InvalidKey, library).
Proof. apply (insert_rejected_key (Some JNull) node library). reflexivity. Defined.

(** X10: a transaction whose body is one insert is that insert. *)
Theorem transaction_single_insert (key : operand) (document : document)
  (s : Database) :
  transaction [Insert key document] s = insert key document s.
Proof.
  unfold transaction, callback, insert. cbn [for_of run_action].
  unfold transaction_insert, bind, ret.
  destruct (db_put key document s) as [[[]|e] s1]; reflexivity.
Qed.

(** X11: an [insert] that returns has rebuilt every registered index
    once, in the order of the metadata, and a search of an index of
    kind text or number for the value the document has for its field
    finds the document. *)
Theorem insert_indexes_document (key : operand) (document : document)
  (s s' : Database) :
  insert key document s = (Ok tt, s') ->
  opened (log s') = (opened (log s) ++ map fst (meta s))%list
  /\ forall n def,
       obj_get n (meta s) = Some def ->
       (def_type def =? "number") || (def_type def =? "text") = true ->
       exists indexKey docs,
         encode_key (obj_get (def_field def) document) = Some indexKey
         /\ fst (search {| index := n; query_eq := Some indexKey;
                           query_startsWith := None |} s') = Ok docs
         /\ In (Some document) docs.
Proof.
  intros Hrun.
  assert (Ht : transaction [Insert key document] s = (Ok tt, s')).
  { rewrite <- Hrun. unfold transaction, callback, insert.
    cbn [for_of run_action]. unfold transaction_insert, bind, ret.
    destruct (db_put key document s) as [[[]|e] s1]; reflexivity. }
  destruct (transaction_returns _ _ _ Ht) as (Hdb & Hopen & Hfound).
  split; [exact Hopen|].
  intros n def Hdef Hrec.
  destruct (Hfound key document (or_introl eq_refl)) as (k & Hk & _ & H).
  assert (Hget : store_get k (db s') = Some document).
  { rewrite Hdb. cbn [written]. rewrite Hk. cbn [put_all fold_left fst snd].
    apply store_get_put_same. }
  destruct (H Hget n def Hdef Hrec)
    as (indexKey & Henc & _ & docs & Hsearch & Hin).
  eauto.
Qed.

Lemma insert_indexes_document_witness :
  opened (log (snd (insert (Some (JStr "C")) node library)))
  = (opened (log library) ++ ["title"])%list.
Proof.
  assert (Hrun : insert (Some (JStr "C")) node library
                 = (Ok tt, snd (insert (Some (JStr "C")) node library))).
  { vm_compute. reflexivity. }
  apply (insert_indexes_document _ _ _ _ Hrun).
Defined.

(** ** [createIndex] that does not get through *)

Lemma closed_app l1 l2 : closed (l1 ++ l2) = (closed l1 ++ closed l2)%list.
Proof.
  induction l1 as [|e l1 IH]; [reflexivity|].
  destruct e; simpl; rewrite IH; reflexivity.
Qed.





(** X13: [search] raises nothing and writes nothing: it returns a
    sequence, the stores and the metadata are as they were, and the
    posting store of the index has been opened once and closed once. *)
Theorem search_returns (sr : Search) (s : Database) :
  (exists docs, fst (search sr s) = Ok docs)
  /\ db (snd (search sr s)) = db s
  /\ index_db (snd (search sr s)) = index_db s
  /\ meta (snd (search sr s)) = meta s
  /\ meta_json (snd (search sr s)) = meta_json s
  /\ opened (log (snd (search sr s))) = (opened (log s) ++ [index sr])%list
  /\ closed (log (snd (search sr s))) = (closed (log s) ++ [index sr])%list.
Proof.
  split; [eexists; apply search_result|].
  destruct (search_frame sr s) as (H1 & H2 & H3 & H4).
  repeat (split; [assumption|]).
  destruct sr as [n qe qs].
  cbv [search bind index_open index_close index_get index_seek catch emit ret
       db_getMany index query_eq query_startsWith encode_key to_String].
  cbn [db index_db meta meta_json log fst snd].
  destruct qe as [v|]; destruct qs as [p|];
    cbn [db index_db meta meta_json log fst snd];
    try destruct (store_get v (index_db s n)) as [l|];
    cbn [db index_db meta meta_json log fst snd app];
    try match goal with
        | |- context [match ?k with [] => _ | _ :: _ => _ end] => destruct k
        end;
    cbn [db index_db meta meta_json log fst snd];
    rewrite ?opened_app, ?closed_app; cbn [opened closed];
    rewrite ?app_nil_r; split; reflexivity.
Qed.

(** ** What every method keeps *)

(** X14: no method takes a key off a posting list: what is posted
    stays posted, whatever is called afterwards, an insert that writes
    over the document included. *)
Theorem postings_never_removed (calls : list call) (s : Database)
  (n indexKey k : string) :
  In k (posting indexKey (index_db s n)) ->
  In k (posting indexKey (index_db (run_calls calls s) n)).
Proof. apply run_calls_postings. Qed.

Lemma postings_never_removed_witness :
  In "1" (posting "Node"
            (index_db (run_calls [CallInsert (Some (JNum 1)) zed;
                                  CallCreateIndex title_index] rewritten)
                      "title")).
Proof.
  apply (postings_never_removed _ rewritten "title" "Node" "1").
  vm_compute. left. reflexivity.
Defined.

Lemma put_all_ascending docs : forall st,
  ascending st = true -> ascending (put_all docs st) = true.
Proof.
  induction docs as [|[k d] rest IH]; intros st H; [exact H|].
  cbn [put_all fold_left fst snd]. apply IH, store_put_ascending, H.
Qed.

Lemma run_call_db c s :
  exists docs, db (run_call c s) = put_all docs (db s).
Proof.
  destruct c as [key document|idx|body|sr|key]; cbn [run_call].
  - unfold insert, bind, db_put, throw.
    destruct (encode_key key) as [k|]; [|exists []; reflexivity].
    match goal with
    | |- context [rebuild_indexes ?s1] =>
        pose proof (rebuild_indexes_rebuilds s1) as (H & _);
        destruct (rebuild_indexes s1) as [[[]|e] s2]
    end; cbn [snd db] in *; exists [(k, document)]; exact H.
  - destruct (createIndex_postings idx s) as (H & _).
    exists []. exact H.
  - destruct (callback_spec body s) as (Hdb & _).
    unfold transaction, bind.
    destruct (callback body s) as [[[]|e] s1]; cbn [snd] in *;
      exists (written body); [|exact Hdb].
    pose proof (rebuild_indexes_rebuilds s1) as (H & _). congruence.
  - destruct (search_frame sr s) as (H & _). exists []. exact H.
  - destruct (get_frame key s) as (H & _). exists []. exact H.
Qed.

(** X15: the stores stay in the order of their keys: if the primary
    store and the posting stores are, they are after any calls, so that
    a prefix search always finds the order it relies on. *)
Theorem stores_stay_ascending (calls : list call) (s : Database) :
  ascending (db s) = true ->
  (forall n, ascending (index_db s n) = true) ->
  ascending (db (run_calls calls s)) = true
  /\ forall n, ascending (index_db (run_calls calls s) n) = true.
Proof.
  intros Hdb Hix. split; [|apply run_calls_postings, Hix].
  clear Hix. revert s Hdb.
  induction calls as [|c calls IH]; intros s Hdb; [exact Hdb|].
  unfold run_calls in *. cbn [fold_left]. apply IH.
  destruct (run_call_db c s) as [docs ->]. apply put_all_ascending, Hdb.
Qed.

Lemma stores_stay_ascending_witness :
  ascending (db rewritten) = true
  /\ ascending (index_db rewritten "title") = true.
Proof.
  destruct (stores_stay_ascending
              [CallInsert (Some (JNum 1)) node; CallCreateIndex title_index;
               CallInsert (Some (JNum 1)) zed] empty_database)
    as [H1 H2]; [reflexivity|reflexivity|].
  split; [exact H1|exact (H2 "title")].
Defined.

(** *** Posted keys are keys of the primary store *)

Lemma store_get_present {V} k (v : V) st :
  In (k, v) st -> store_get k st <> None.
Proof.
  induction st as [|[k' v'] rest IH]; cbn [In store_get]; [intros []|].
  destruct (String.eqb_spec k' k) as [-> | Hne]; [discriminate|].
  intros [H|H]; [congruence|auto].
Qed.

Lemma store_put_present {V} k (v : V) k' st :
  store_get k' st <> None -> store_get k' (store_put k v st) <> None.
Proof.
  intros H. destruct (String.eqb_spec k' k) as [-> | Hne].
  - rewrite store_get_put_same. discriminate.
  - rewrite store_get_put_other by exact Hne. exact H.
Qed.

Lemma put_all_present docs : forall (st : store document) k,
  store_get k st <> None -> store_get k (put_all docs st) <> None.
Proof.
  induction docs as [|[k0 d] rest IH]; intros st k H; [exact H|].
  cbn [put_all fold_left fst snd]. apply IH, store_put_present, H.
Qed.

Lemma post_listed key indexKey postings indexKey' l k :
  In (indexKey', l) (post key indexKey postings) -> In k l ->
  k = key \/ exists indexKey0 l0, In (indexKey0, l0) postings /\ In k l0.
Proof.
  unfold post. destruct (includes key (posting indexKey postings)); [eauto|].
  intros Hin Hk. apply store_put_keys in Hin. destruct Hin as [Heq|Hin];
    [|eauto].
  injection Heq as -> ->. apply in_app_or in Hk.
  destruct Hk as [Hk|[<-|[]]]; [|auto].
  right. unfold posting in Hk.
  destruct (store_get indexKey postings) as [l0|] eqn:E; [|destruct Hk].
  exists indexKey, l0. split; [apply store_get_In, E|exact Hk].
Qed.

Lemma fill_listed field entries : forall postings indexKey l k,
  In (indexKey, l) (fst (fill field entries postings)) -> In k l ->
  (exists d, In (k, d) entries)
  \/ exists indexKey0 l0, In (indexKey0, l0) postings /\ In k l0.
Proof.
  induction entries as [|[key value] rest IH]; intros postings indexKey l k;
    cbn [fill]; [eauto|].
  destruct (encode_key (obj_get field value)) as [ik|]; [|eauto].
  intros Hin Hk. destruct (IH _ _ _ _ Hin Hk) as [[d Hd]|(ik0 & l0 & Hin0 & Hk0)].
  - left. exists d. right. exact Hd.
  - destruct (post_listed _ _ _ _ _ _ Hin0 Hk0) as [-> | H]; [|auto].
    left. exists value. left. reflexivity.
Qed.

Lemma createIndex_sound idx s : sound s -> sound (snd (createIndex idx s)).
Proof.
  intros Hs.
  destruct (createIndex_spec idx s) as (s' & -> & Hps & Hdb & Hother & _).
  cbn [snd]. intros n indexKey l k Hin Hk. rewrite Hdb.
  destruct (String.eqb_spec n (name idx)) as [-> | Hne].
  - rewrite Hps in Hin. unfold rebuilt in Hin.
    destruct ((type idx =? "number") || (type idx =? "text"));
      [|exact (Hs _ _ _ _ Hin Hk)].
    destruct (fill_listed _ _ _ _ _ _ Hin Hk) as [[d Hd]|(ik0 & l0 & Hin0 & Hk0)].
    + eapply store_get_present, Hd.
    + exact (Hs _ _ _ _ Hin0 Hk0).
  - rewrite (Hother n Hne) in Hin. exact (Hs _ _ _ _ Hin Hk).
Qed.

Lemma for_of_rebuild_sound names : forall s,
  sound s -> sound (snd (for_of rebuild names s)).
Proof.
  induction names as [|n rest IH]; intros s Hs; [exact Hs|].
  cbn [for_of]. unfold bind.
  assert (H : sound (snd (rebuild n s))).
  { unfold rebuild. destruct (obj_get n (meta s)); [|exact Hs].
    apply createIndex_sound, Hs. }
  destruct (rebuild n s) as [[[]|e] s1]; cbn [snd] in *; auto.
Qed.

Lemma put_sound docs s s1 :
  sound s -> db s1 = put_all docs (db s) -> index_db s1 = index_db s ->
  sound s1.
Proof.
  intros Hs Hdb Hix n indexKey l k Hin Hk. rewrite Hdb. rewrite Hix in Hin.
  apply put_all_present. exact (Hs _ _ _ _ Hin Hk).
Qed.

Lemma run_call_sound c s : sound s -> sound (run_call c s).
Proof.
  intros Hs. destruct c as [key document|idx|body|sr|key]; cbn [run_call].
  - unfold insert, bind, db_put, throw.
    destruct (encode_key key) as [k|]; [|exact Hs].
    match goal with
    | |- context [rebuild_indexes ?s1] =>
        assert (H1 : sound s1)
          by (apply (put_sound [(k, document)] s); auto);
        pose proof (for_of_rebuild_sound (map fst (meta s1)) s1 H1) as H2;
        fold (rebuild_indexes s1) in H2;
        destruct (rebuild_indexes s1) as [[[]|e] s2]
    end; exact H2.
  - apply createIndex_sound, Hs.
  - destruct (callback_spec body s) as (Hdb & Hix & _).
    unfold transaction, bind.
    pose proof (put_sound (written body) s _ Hs Hdb Hix) as H1.
    destruct (callback body s) as [[[]|e] s1]; cbn [snd] in *; [|exact H1].
    pose proof (for_of_rebuild_sound (map fst (meta s1)) s1 H1) as H2.
    fold (rebuild_indexes s1) in H2.
    destruct (rebuild_indexes s1) as [[[]|e] s2]; exact H2.
  - destruct (search_frame sr s) as (Hdb & Hix & _).
    apply (put_sound [] s); auto.
  - destruct (get_frame key s) as (Hdb & Hix & _).
    apply (put_sound [] s); auto.
Qed.

Lemma run_calls_sound calls : forall s, sound s -> sound (run_calls calls s).
Proof.
  induction calls as [|c calls IH]; intros s Hs; [exact Hs|].
  unfold run_calls in *. cbn [fold_left]. apply IH, run_call_sound, Hs.
Qed.

Lemma scan_listed p entries : forall k,
  In k (scan p [] entries) ->
  exists indexKey l, In (indexKey, l) entries /\ In k l.
Proof.
  induction entries as [|[key value] rest IH]; intros k; cbn [scan];
    [intros []|].
  destruct (String.prefix p key); [|intros []].
  rewrite scan_app. cbn [app]. intros H. apply in_app_or in H.
  destruct H as [H|H].
  - exists key, value. split; [left; reflexivity|exact H].
  - destruct (IH k H) as (ik & l & Hin & Hk). exists ik, l.
    split; [right; exact Hin|exact Hk].
Qed.

Lemma store_seek_incl {V} target (st : store V) x :
  In x (store_seek target st) -> In x st.
Proof.
  induction st as [|[k v] rest IH]; cbn [store_seek]; [auto|].
  destruct (String.ltb k target); [right; auto|auto].
Qed.

(** X16: a key that is on a posting list is a key of the primary
    store: after any calls on a database where this holds, the empty
    one for instance, it holds, and no search answers [undefined] for a
    key it collected. *)
Theorem postings_sound (calls : list call) (s : Database) (sr : Search)
  (docs : list (option document)) :
  sound s ->
  sound (run_calls calls s)
  /\ (fst (search sr (run_calls calls s)) = Ok docs -> ~ In None docs).
Proof.
  intros Hs. pose proof (run_calls_sound calls s Hs) as H.
  split; [exact H|].
  rewrite search_result. intros Hdocs. injection Hdocs as <-.
  rewrite in_map_iff. intros (k & Hget & Hk).
  apply in_app_or in Hk. destruct Hk as [Hk|Hk].
  - destruct (query_eq sr) as [v|]; [|destruct Hk].
    destruct (store_get v _) as [l|] eqn:E; [|destruct Hk].
    apply store_get_In in E. exact (H _ _ _ _ E Hk Hget).
  - destruct (query_startsWith sr) as [p|]; [|destruct Hk].
    apply scan_listed in Hk. destruct Hk as (ik & l & Hin & Hk).
    apply store_seek_incl in Hin. exact (H _ _ _ _ Hin Hk Hget).
Qed.

Lemma postings_sound_witness :
  ~ In None [Some zed].
Proof.
  apply (postings_sound
           [CallInsert (Some (JNum 1)) node; CallCreateIndex title_index;
            CallInsert (Some (JNum 1)) zed] empty_database
           {| index := "title"; query_eq := None;
              query_startsWith := Some "No" |} [Some zed]).
  - intros n indexKey l k [].
  - reflexivity.
Defined.

(** *** The metadata and its file *)

Lemma createIndex_meta_json idx s :
  meta_json s = Some (meta s) ->
  meta_json (snd (createIndex idx s)) = Some (meta (snd (createIndex idx s))).
Proof.
  intros H.
  destruct (createIndex_spec idx s) as (s' & -> & _ & _ & _ & _ & Hm & Hj).
  cbn [snd]. rewrite Hj. destruct (snd (rebuilt idx s)); congruence.
Qed.

Lemma for_of_rebuild_meta_json names : forall s,
  meta_json s = Some (meta s) ->
  meta_json (snd (for_of rebuild names s))
  = Some (meta (snd (for_of rebuild names s))).
Proof.
  induction names as [|n rest IH]; intros s Hs; [exact Hs|].
  cbn [for_of]. unfold bind.
  assert (H : meta_json (snd (rebuild n s)) = Some (meta (snd (rebuild n s)))).
  { unfold rebuild. destruct (obj_get n (meta s)); [|exact Hs].
    apply createIndex_meta_json, Hs. }
  destruct (rebuild n s) as [[[]|e] s1]; cbn [snd] in *; auto.
Qed.

Lemma run_call_meta_json c s :
  meta_json s = Some (meta s) ->
  meta_json (run_call c s) = Some (meta (run_call c s)).
Proof.
  intros Hs. destruct c as [key document|idx|body|sr|key]; cbn [run_call].
  - unfold insert, bind, db_put, throw.
    destruct (encode_key key) as [k|]; [|exact Hs].
    match goal with
    | |- context [rebuild_indexes ?s1] =>
        pose proof (for_of_rebuild_meta_json (map fst (meta s1)) s1 Hs) as H2;
        fold (rebuild_indexes s1) in H2;
        destruct (rebuild_indexes s1) as [[[]|e] s2]
    end; exact H2.
  - apply createIndex_meta_json, Hs.
  - destruct (callback_spec body s) as (_ & _ & Hm & Hj & _).
    unfold transaction, bind.
    destruct (callback body s) as [[[]|e] s1]; cbn [snd] in *;
      [|congruence].
    assert (H1 : meta_json s1 = Some (meta s1)) by congruence.
    pose proof (for_of_rebuild_meta_json (map fst (meta s1)) s1 H1) as H2.
    fold (rebuild_indexes s1) in H2.
    destruct (rebuild_indexes s1) as [[[]|e] s2]; exact H2.
  - destruct (search_frame sr s) as (_ & _ & -> & ->). exact Hs.
  - destruct (get_frame key s) as (_ & _ & -> & ->). exact Hs.
Qed.

(** X17: [open] writes the metadata to its file, and from then on the
    file holds the metadata after every call, whether the call returns
    or raises; [close] writes it once more, so that a database made
    over the same root afterwards starts with the index definitions the
    closed one had. *)
Theorem metadata_file_current (calls : list call) (s : Database)
  (primary : store document) (postings : string -> store (list string)) :
  let s' := run_calls calls (snd (open s)) in
  fst (open s) = Ok tt
  /\ meta_json s' = Some (meta s')
  /\ meta (new_Database (meta_json (snd (close s'))) primary postings)
     = meta s'.
Proof.
  cbn zeta. split; [reflexivity|]. split; [|reflexivity].
  generalize (snd (open s)) (eq_refl : meta_json (snd (open s))
                                       = Some (meta (snd (open s)))).
  induction calls as [|c calls IH]; intros s0 H0; [exact H0|].
  unfold run_calls in *. cbn [fold_left]. apply IH, run_call_meta_json, H0.
Qed.

(** X18: whatever its outcome, [createIndex] leaves the primary store
    and the posting stores of the other names as they were, and opens
    no posting store but its own. *)
Theorem createIndex_frame (idx : IndexOptions) (s : Database) (n : string) :
  db (snd (createIndex idx s)) = db s
  /\ (n <> name idx -> index_db (snd (createIndex idx s)) n = index_db s n)
  /\ opened (log (snd (createIndex idx s)))
     = (opened (log s) ++ [name idx])%list.
Proof.
  destruct (createIndex_spec idx s) as (s' & -> & _ & Hdb & Hother & Ho & _).
  cbn [snd]. auto.
Qed.

Lemma createIndex_frame_witness :
  index_db (snd (createIndex date_index library)) "title"
  = index_db library "title".
Proof.
  apply (createIndex_frame date_index library "title"). discriminate.
Defined.

(** *** The registered indexes *)

Section ObjectSet.
Context {A : Type}.
Implicit Types (o : object A) (key : string) (v : A).

Lemma obj_get_replace_other key key' v o :
  key' <> key -> obj_get key' (obj_replace key v o) = obj_get key' o.
Proof.
  intros Hne. induction o as [|[k v'] rest IH]; cbn [obj_replace obj_get];
    [reflexivity|].
  destruct (String.eqb_spec k key) as [-> | Hk]; cbn [obj_get].
  - apply String.eqb_neq in Hne. rewrite String.eqb_sym, Hne. reflexivity.
  - rewrite IH. reflexivity.
Qed.

Lemma obj_get_add_index_other n key key' v o :
  key' <> key -> obj_get key' (obj_add_index n key v o) = obj_get key' o.
Proof.
  intros Hne. apply String.eqb_neq in Hne. rewrite String.eqb_sym in Hne.
  induction o as [|[k v'] rest IH]; cbn [obj_add_index obj_get].
  - rewrite Hne. reflexivity.
  - destruct (array_index k) as [m|]; [destruct (m <? n)%N|];
      cbn [obj_get]; rewrite ?Hne, ?IH; reflexivity.
Qed.

Lemma obj_get_append_other key key' v o :
  key' <> key -> obj_get key' (o ++ [(key, v)])%list = obj_get key' o.
Proof.
  intros Hne. apply String.eqb_neq in Hne. rewrite String.eqb_sym in Hne.
  induction o as [|[k v'] rest IH]; cbn [app obj_get].
  - rewrite Hne. reflexivity.
  - rewrite IH. reflexivity.
Qed.

Lemma obj_get_set_other key key' v o :
  key' <> key -> obj_get key' (obj_set key v o) = obj_get key' o.
Proof.
  intros Hne. unfold obj_set. destruct (obj_has key o).
  - apply obj_get_replace_other, Hne.
  - destruct (array_index key).
    + apply obj_get_add_index_other, Hne.
    + apply obj_get_append_other, Hne.
Qed.
End ObjectSet.

(** X19: a [createIndex] that returns has registered the index under
    its name, so that the inserts and transactions that follow rebuild
    it, and has left the definitions under the other names as they
    were. *)
Theorem createIndex_registers (idx : IndexOptions) (s : Database)
  (n : string) :
  fst (createIndex idx s) = Ok tt ->
  In (name idx) (map fst (meta (snd (createIndex idx s))))
  /\ (n <> name idx ->
      obj_get n (meta (snd (createIndex idx s))) = obj_get n (meta s)).
Proof.
  destruct (createIndex_spec idx s) as (s' & -> & _ & _ & _ & _ & Hm & _).
  cbn [fst snd]. destruct (snd (rebuilt idx s)); [|discriminate].
  intros _. rewrite Hm. split.
  - eapply obj_get_In_keys, obj_get_set.
  - apply obj_get_set_other.
Qed.

Lemma createIndex_registers_witness :
  In "created" (map fst (meta (snd (createIndex date_index library)))).
Proof.
  apply (createIndex_registers date_index library "title"). reflexivity.
Defined.

(** ** More on [search] *)

(** X20: when the postings of an index are those of the documents
    there are, an [$eq] search answers with the documents whose value
    for the field is filed under the value searched for, and with no
    other. *)
Theorem eq_search_current (n field v : string) (s : Database) :
  current field (index_db s n) (db s) = true ->
  exists docs,
    fst (search {| index := n; query_eq := Some v;
                   query_startsWith := None |} s) = Ok docs
    /\ forall d,
         In (Some d) docs
         <-> exists k,
               store_get k (db s) = Some d
               /\ encode_key (obj_get field d) = Some v.
Proof.
  intros Hcur. eexists. split; [apply search_result|].
  cbn [index query_eq query_startsWith]. rewrite app_nil_r.
  intros d. rewrite in_map_iff. split.
  - intros (k & Hget & Hk).
    destruct (store_get v (index_db s n)) as [l|] eqn:E; [|destruct Hk].
    apply store_get_In in E.
    destruct (current_listed _ _ _ _ _ _ Hcur E Hk) as (d' & Hget' & Henc).
    rewrite Hget in Hget'. injection Hget' as <-. eauto.
  - intros (k & Hget & Henc). exists k. split; [exact Hget|].
    unfold current in Hcur. apply andb_true_iff in Hcur.
    destruct Hcur as [_ H]. rewrite forallb_forall in H.
    specialize (H _ (store_get_In _ _ _ Hget)). cbn [fst snd] in H.
    rewrite Henc in H. apply includes_In in H. exact H.
Qed.

Lemma eq_search_current_witness :
  exists docs,
    fst (search {| index := "title"; query_eq := Some "Node Advanced";
                   query_startsWith := None |} library) = Ok docs
    /\ forall d,
         In (Some d) docs
         <-> exists k,
               store_get k (db library) = Some d
               /\ encode_key (obj_get "title" d) = Some "Node Advanced".
Proof.
  apply (eq_search_current "title" "title" "Node Advanced" library).
  reflexivity.
Defined.

(** X21: every key has the empty prefix: on a posting store in key
    order a [$startsWith] search for the empty string collects every
    posting list, in the order of the index keys. *)
Theorem startsWith_empty_prefix (n : string) (s : Database) :
  ascending (index_db s n) = true ->
  fst (search {| index := n; query_eq := None;
                 query_startsWith := Some "" |} s)
  = Ok (map (fun k => store_get k (db s)) (flat_map snd (index_db s n))).
Proof.
  intros Hasc. rewrite search_result.
  cbn [index query_eq query_startsWith app]. rewrite (scan_seek "" _ Hasc).
  do 3 f_equal. clear Hasc.
  induction (index_db s n) as [|[k l] rest IH]; [reflexivity|].
  cbn [List.filter fst]. destruct k; cbn [String.prefix]; rewrite IH;
    reflexivity.
Qed.

Lemma startsWith_empty_prefix_witness :
  fst (search {| index := "title"; query_eq := None;
                 query_startsWith := Some "" |} library)
  = Ok [Some node_advanced; Some node_js].
Proof.
  apply (startsWith_empty_prefix "title" library). reflexivity.
Defined.

(** ** A transaction and the inserts one by one *)

Lemma insert_db key document k s :
  encode_key key = Some k ->
  db (snd (insert key document s)) = store_put k document (db s).
Proof.
  intros Hk. unfold insert, bind. rewrite (db_put_spec _ _ _ _ Hk).
  match goal with
  | |- context [rebuild_indexes ?s1] =>
      pose proof (rebuild_indexes_rebuilds s1) as (Hdb & _);
      destruct (rebuild_indexes s1) as [[[]|e] s2]
  end; exact Hdb.
Qed.

Lemma transaction_db body s :
  db (snd (transaction body s)) = put_all (written body) (db s).
Proof.
  destruct (callback_spec body s) as (Hdb & _).
  unfold transaction, bind.
  destruct (callback body s) as [[[]|e] s1]; cbn [snd] in *; [|exact Hdb].
  pose proof (rebuild_indexes_rebuilds s1) as (H & _). congruence.
Qed.

(** X22: with keys the store takes, a transaction that inserts
    documents leaves the primary store as the same inserts made one by
    one do, whether or not the rebuilds get through: a transaction
    changes when the indexes are rebuilt and nothing of what is
    stored. *)
Theorem transaction_stores_as_inserts (docs : list (operand * document))
  (s : Database) :
  forallb (fun kd => match encode_key (fst kd) with
                     | Some _ => true
                     | None => false
                     end) docs = true ->
  db (snd (transaction (map (fun kd => Insert (fst kd) (snd kd)) docs) s))
  = db (run_calls (map (fun kd => CallInsert (fst kd) (snd kd)) docs) s).
Proof.
  rewrite transaction_db. revert s.
  induction docs as [|[key document] rest IH]; intros s Hkeys; [reflexivity|].
  cbn [forallb fst snd] in Hkeys. apply andb_true_iff in Hkeys.
  destruct Hkeys as [Hk Hkeys].
  destruct (encode_key key) as [k|] eqn:E; [|discriminate].
  unfold run_calls in *. cbn [map fold_left written fst snd run_call].
  rewrite E. cbn [put_all fold_left fst snd].
  rewrite <- (IH (snd (insert key document s)) Hkeys).
  rewrite (insert_db _ _ _ _ E). reflexivity.
Qed.

Lemma transaction_stores_as_inserts_witness :
  db (snd (transaction two_inserts library))
  = db (run_calls [CallInsert (Some (JStr "C")) node;
                   CallInsert (Some (JStr "D")) zed] library).
Proof.
  apply (transaction_stores_as_inserts
           [(Some (JStr "C"), node); (Some (JStr "D"), zed)] library).
  reflexivity.
Defined.

(** ** A new index *)

Lemma post_listed_at key indexKey postings indexKey' l k :
  In (indexKey', l) (post key indexKey postings) -> In k l ->
  (k = key /\ indexKey' = indexKey)
  \/ exists l0, In (indexKey', l0) postings /\ In k l0.
Proof.
  unfold post. destruct (includes key (posting indexKey postings)); [eauto|].
  intros Hin Hk. apply store_put_keys in Hin. destruct Hin as [Heq|Hin];
    [|eauto].
  injection Heq as -> ->. apply in_app_or in Hk.
  destruct Hk as [Hk|[<-|[]]]; [|auto].
  right. unfold posting in Hk.
  destruct (store_get indexKey postings) as [l0|] eqn:E; [|destruct Hk].
  exists l0. split; [apply store_get_In, E|exact Hk].
Qed.

Lemma fill_listed_at field entries : forall postings indexKey l k,
  In (indexKey, l) (fst (fill field entries postings)) -> In k l ->
  (exists d, In (k, d) entries
             /\ encode_key (obj_get field d) = Some indexKey)
  \/ exists l0, In (indexKey, l0) postings /\ In k l0.
Proof.
  induction entries as [|[key value] rest IH]; intros postings indexKey l k;
    cbn [fill]; [eauto|].
  destruct (encode_key (obj_get field value)) as [ik|] eqn:E; [|eauto].
  intros Hin Hk.
  destruct (IH _ _ _ _ Hin Hk) as [(d & Hd & Hf)|(l0 & Hin0 & Hk0)].
  - left. exists d. split; [right; exact Hd|exact Hf].
  - destruct (post_listed_at _ _ _ _ _ _ Hin0 Hk0) as [[-> ->]|H]; [|auto].
    left. exists value. split; [left; reflexivity|exact E].
Qed.

(** X23: a [createIndex] of kind text or number that returns, for a
    name whose posting store is empty, leaves postings that are those of
    the documents there are: each key is listed under the value its
    document has for the field and under no other, which is what the
    searches rely on to answer with the right documents. *)
Theorem createIndex_new_current (idx : IndexOptions) (s : Database) :
  (type idx =? "number") || (type idx =? "text") = true ->
  index_db s (name idx) = [] ->
  ascending (db s) = true ->
  fst (createIndex idx s) = Ok tt ->
  current (field idx)
          (index_db (snd (createIndex idx s)) (name idx))
          (db (snd (createIndex idx s))) = true.
Proof.
  intros Hrec Hempty Hasc.
  destruct (createIndex_spec idx s) as (s' & -> & Hps & Hdb & _).
  cbn [fst snd]. unfold rebuilt in *. rewrite Hrec, Hempty in *.
  rewrite fill_through in *.
  destruct (indexable (field idx) (db s)) eqn:Hable; [|discriminate].
  intros _. rewrite Hps, Hdb. unfold current. apply andb_true_iff. split.
  - apply forallb_forall. intros [indexKey l] Hin.
    apply forallb_forall. intros k Hk. cbn [fst snd].
    destruct (fill_listed_at _ _ _ _ _ _ Hin Hk)
      as [(d & Hd & Hf)|(l0 & [] & _)].
    rewrite (In_store_get _ _ _ Hasc Hd), Hf. apply String.eqb_refl.
  - apply forallb_forall. intros [k d] Hin. cbn [fst snd].
    destruct (covered_all _ _ _ Hable (fill_covers (field idx) (db s) [])
                k d Hin)
      as (indexKey & -> & Hposted).
    apply includes_In, Hposted.
Qed.

Lemma createIndex_new_current_witness :
  current "title"
    (index_db (snd (createIndex title_index
                      (snd (insert (Some (JNum 1)) node empty_database))))
              "title")
    (db (snd (createIndex title_index
                (snd (insert (Some (JNum 1)) node empty_database)))))
  = true.
Proof.
  apply (createIndex_new_current title_index
           (snd (insert (Some (JNum 1)) node empty_database)));
    reflexivity.
Defined.

(** ** The same insert again *)

Lemma store_put_again {V} k (v : V) st :
  store_put k v (store_put k v st) = store_put k v st.
Proof.
  induction st as [|[k' v'] rest IH]; cbn [store_put].
  - rewrite compare_refl. reflexivity.
  - destruct (String.compare k k') eqn:E; cbn [store_put].
    + rewrite compare_refl. reflexivity.
    + rewrite compare_refl. reflexivity.
    + rewrite E, IH. reflexivity.
Qed.

Lemma for_of_rebuild_covered names : forall s,
  (forall n def,
     In n names -> obj_get n (meta s) = Some def ->
     (def_type def =? "number") || (def_type def =? "text") = true ->
     indexable (def_field def) (db s) = true
     /\ covered (def_field def) (db s) (index_db s n)) ->
  exists s',
    for_of rebuild names s = (Ok tt, s')
    /\ db s' = db s /\ meta s' = meta s
    /\ forall n, index_db s' n = index_db s n.
Proof.
  induction names as [|n rest IH]; intros s Hcov.
  - exists s. cbn. auto.
  - cbn [for_of]. unfold bind.
    assert (H1 : exists s1,
      rebuild n s = (Ok tt, s1) /\ db s1 = db s /\ meta s1 = meta s
      /\ forall n', index_db s1 n' = index_db s n').
    { unfold rebuild. destruct (obj_get n (meta s)) as [[f t]|] eqn:Hdef;
        [|exists s; auto].
      cbn [def_field def_type].
      destruct (createIndex_spec {| name := n; field := f; type := t |} s)
        as (s1 & Hrun & Hps & Hdb & Hother & _ & Hmeta & _).
      unfold rebuilt in *. cbn [name field type] in *.
      specialize (Hcov n _ (or_introl eq_refl) Hdef). cbn [def_field def_type] in Hcov.
      assert (Hsame : (if (t =? "number") || (t =? "text")
                       then fill f (db s) (index_db s n)
                       else (index_db s n, true)) = (index_db s n, true)).
      { destruct ((t =? "number") || (t =? "text")); [|reflexivity].
        destruct (Hcov eq_refl) as [Hable Hc].
        rewrite (surjective_pairing (fill f (db s) (index_db s n))).
        rewrite fill_through, Hable, (fill_covered _ _ _ Hc). reflexivity. }
      rewrite Hsame in *. cbn [fst snd] in *.
      exists s1. split; [exact Hrun|]. split; [exact Hdb|].
      split; [rewrite Hmeta; apply obj_set_same, Hdef|].
      intros n'. destruct (String.eqb_spec n' n) as [-> | Hne]; auto. }
    destruct H1 as (s1 & -> & Hdb1 & Hmeta1 & Hix1).
    destruct (IH s1) as (s' & Hrun & Hdb & Hmeta & Hix).
    { intros n' def Hin Hdef Hrec. rewrite Hdb1, Hix1.
      rewrite Hmeta1 in Hdef. apply Hcov; [right; exact Hin|exact Hdef|exact Hrec]. }
    exists s'. split; [exact Hrun|]. split; [congruence|].
    split; [congruence|]. intros n'. rewrite Hix. apply Hix1.
Qed.

(** X24: an [insert] that returned, made again with the same key and
    document, returns again and leaves the primary store, every posting
    store and the index definitions as the first left them. *)
Theorem insert_again (key : operand) (document : document)
  (s s1 : Database) :
  insert key document s = (Ok tt, s1) ->
  exists s2,
    insert key document s1 = (Ok tt, s2)
    /\ db s2 = db s1
    /\ meta s2 = meta s1
    /\ forall n, index_db s2 n = index_db s1 n.
Proof.
  unfold insert, bind, db_put.
  destruct (encode_key key) as [k|]; [|discriminate].
  intros Hrun. pose proof Hrun as Hrun'.
  match type of Hrun with
  | rebuild_indexes ?s0 = _ =>
      pose proof (rebuild_indexes_rebuilds s0) as (Hdb & Hmeta & _);
      unfold rebuild_indexes in Hrun';
      apply for_of_rebuild_ok in Hrun'; [|auto];
      destruct Hrun' as [_ Hcov]
  end.
  rewrite Hrun in Hdb, Hmeta. cbn [snd db meta] in *.
  unfold rebuild_indexes at 1. cbn [meta].
  match goal with
  | |- context [for_of rebuild ?names ?s1'] =>
      destruct (for_of_rebuild_covered names s1')
        as (s2 & Hrun2 & Hdb2 & Hmeta2 & Hix2)
  end.
  - cbn [db meta index_db]. intros n def Hin Hdef Hrec.
    rewrite Hdb, store_put_again. rewrite Hmeta in Hdef, Hin.
    apply Hcov; assumption.
  - exists s2. cbn [db meta index_db] in *.
    split; [exact Hrun2|]. split; [|auto].
    rewrite Hdb2, Hdb. apply store_put_again.
Qed.

Lemma insert_again_witness :
  exists s2,
    insert (Some (JStr "C")) node
      (snd (insert (Some (JStr "C")) node library)) = (Ok tt, s2)
    /\ db s2 = db (snd (insert (Some (JStr "C")) node library))
    /\ meta s2 = meta (snd (insert (Some (JStr "C")) node library))
    /\ forall n,
         index_db s2 n
         = index_db (snd (insert (Some (JStr "C")) node library)) n.
Proof.
  apply (insert_again (Some (JStr "C")) node library).
  vm_compute. reflexivity.
Defined.
